(** * The CSS selector builder of [src/06-objects-tasks.js]

    A shallow embedding of class [Selector] and of the facade object
    [cssSelectorBuilder].  JavaScript objects are mutable and are handled
    through references: every [new Selector(...)] allocates a cell in an
    object store, the instance methods update the cell of [this] in place
    and return [this].  A method body is a computation in a state and
    exception monad over that store, written statement by statement as in
    the source. *)

From Stdlib Require Import ZArith.
From stdpp Require Import base strings list gmap.

Local Open Scope string_scope.
Local Open Scope list_scope.
Local Open Scope Z_scope.

(** ** JavaScript values and built-ins used by the builder *)

Module JS.

(** The values that end up in [template] and in the [selectors] set:
    strings, and [undefined] when a constructor argument is omitted. *)
Inductive value : Type :=
  | undefined
  | str (s : string).

#[global] Instance value_eq_dec : EqDecision value.
Proof. solve_decision. Defined.

Definition value_to_option (v : value) : option string :=
  match v with undefined => None | str s => Some s end.

Definition value_of_option (o : option string) : value :=
  match o with None => undefined | Some s => str s end.

#[global] Instance value_countable : Countable value.
Proof.
  apply (inj_countable' value_to_option value_of_option).
  intros []; reflexivity.
Defined.

(** [ToString], as applied by template literals and by [+] on a string. *)
Definition ToString (v : value) : string :=
  match v with
  | undefined => "undefined"
  | str s => s
  end.

(** [a += b] with [b] a string: string concatenation after [ToString]. *)
Definition plus_assign (a : value) (b : string) : value :=
  str (ToString a +:+ b).

(** [Array.prototype.indexOf]: position of the first occurrence, or -1. *)
Fixpoint indexOf_from (l : list string) (x : string) (i : Z) : Z :=
  match l with
  | [] => -1
  | y :: l' => if String.eqb y x then i else indexOf_from l' x (i + 1)
  end.

Definition indexOf (l : list string) (x : string) : Z := indexOf_from l x 0.

(** [Array.prototype.slice(start, end)], negative indices counted from
    the end, both bounds clamped to the array. *)
Definition slice {A : Type} (l : list A) (start end_ : Z) : list A :=
  let len := Z.of_nat (length l) in
  let k := if start <? 0 then Z.max (len + start) 0 else Z.min start len in
  let final := if end_ <? 0 then Z.max (len + end_) 0 else Z.min end_ len in
  take (Z.to_nat (final - k)) (drop (Z.to_nat k) l).

(** [Array.prototype.some]. *)
Definition some {A : Type} (p : A → bool) (l : list A) : bool := existsb p l.

(** [Array.prototype.join] on an array of strings. *)
Fixpoint join (sep : string) (l : list string) : string :=
  match l with
  | [] => ""
  | [x] => x
  | x :: l' => x +:+ sep +:+ join sep l'
  end.

(** [Set.prototype.has] and [Set.prototype.add]. *)
Definition has (s : gset value) (v : value) : bool := bool_decide (v ∈ s).
Definition add (s : gset value) (v : value) : gset value := {[ v ]} ∪ s.

End JS.

Import JS.

(** ** Completions and the object store *)

(** A statement list either completes normally with a value or abruptly
    with [throw Error(msg)]. *)
Inductive completion (A : Type) : Type :=
  | Normal (a : A)
  | Throw (msg : string).
Arguments Normal {A} a.
Arguments Throw {A} msg.

(** The fields assigned by [constructor(start, startSelector)]. *)
Record Selector_obj : Type := mkSelector {
  template : value;
  selectors : gset value;
  order : list string;
}.

(** Object identity is the index of the cell in the store. *)
Abbreviation ref := nat.
Abbreviation heap := (list Selector_obj).

Definition Exec (A : Type) : Type := heap → completion A * heap.

#[global] Instance Exec_ret : MRet Exec := λ A a h, (Normal a, h).

#[global] Instance Exec_bind : MBind Exec := λ A B f m h,
  match m h with
  | (Normal a, h') => f a h'
  | (Throw msg, h') => (Throw msg, h')
  end.

Definition throw {A : Type} (msg : string) : Exec A := λ h, (Throw msg, h).

(** What the engine raises when a property of a non-object is read.  No
    reference returned by the facade is ever dangling (see
    [facade_ref_valid] and [instance_call_length] below), so this branch
    is only there to keep the model total. *)
Definition TypeError : string := "TypeError".

Definition load (r : ref) : Exec Selector_obj := λ h,
  match h !! r with
  | Some o => (Normal o, h)
  | None => (Throw TypeError, h)
  end.

Definition store (r : ref) (o : Selector_obj) : Exec unit := λ h,
  (Normal (), <[ r := o ]> h).

Definition alloc (o : Selector_obj) : Exec ref := λ h,
  (Normal (length h), h ++ [o]).

(** Field reads and writes on the object behind a reference. *)
Definition get_template (r : ref) : Exec value :=
  o ← load r; mret (template o).

Definition get_selectors (r : ref) : Exec (gset value) :=
  o ← load r; mret (selectors o).

Definition get_order (r : ref) : Exec (list string) :=
  o ← load r; mret (order o).

Definition set_template (r : ref) (t : value) : Exec unit :=
  o ← load r; store r (mkSelector t (selectors o) (order o)).

Definition set_selectors (r : ref) (s : gset value) : Exec unit :=
  o ← load r; store r (mkSelector (template o) s (order o)).

(** The two messages passed to [Error]. *)
Definition DuplicateFragmentError : string :=
  "Element, id and pseudo-element should not occur more then one time inside the selector".

Definition OrderViolationError : string :=
  "Selector parts should be arranged in the following order: element, id, class, attribute, pseudo-class, pseudo-element".

(** ** class Selector *)

Module Selector.

(** [constructor(start, startSelector)]. *)
Definition constructor (start startSelector : value) : Selector_obj :=
  {| template := start;
     selectors := {[ startSelector ]};
     order := ["element"; "id"; "class"; "attr"; "pseudoClass"; "pseudoElement"] |}.

(** [new Selector(start, startSelector)]. *)
Definition new (start startSelector : value) : Exec ref :=
  alloc (constructor start startSelector).

Definition orderIsCorrect (this : ref) (currentSelector : string) : Exec bool :=
  ord ← get_order this;
  sel ← get_selectors this;
  let indexInOrder := indexOf ord currentSelector in
  let nextSelectors := slice ord (indexInOrder + 1) (Z.of_nat (length ord)) in
  mret (negb (some (λ selector, has sel (str selector)) nextSelectors)).

Definition element (this : ref) (value : string) : Exec ref :=
  sel ← get_selectors this;
  (if has sel (str "element") then throw DuplicateFragmentError else mret ());;
  ok ← orderIsCorrect this "element";
  (if negb ok then throw OrderViolationError else mret ());;
  t ← get_template this;
  set_template this (plus_assign t value);;
  mret this.

Definition id (this : ref) (value : string) : Exec ref :=
  sel ← get_selectors this;
  (if has sel (str "id") then throw DuplicateFragmentError
   else set_selectors this (add sel (str "id")));;
  ok ← orderIsCorrect this "id";
  (if negb ok then throw OrderViolationError else mret ());;
  t ← get_template this;
  set_template this (plus_assign t ("#" +:+ value));;
  mret this.

Definition class (this : ref) (value : string) : Exec ref :=
  ok ← orderIsCorrect this "class";
  (if negb ok then throw OrderViolationError else mret ());;
  t ← get_template this;
  set_template this (plus_assign t ("." +:+ value));;
  mret this.

Definition attr (this : ref) (value : string) : Exec ref :=
  ok ← orderIsCorrect this "attr";
  (if negb ok then throw OrderViolationError else mret ());;
  t ← get_template this;
  set_template this (plus_assign t ("[" +:+ value +:+ "]"));;
  mret this.

Definition pseudoClass (this : ref) (value : string) : Exec ref :=
  ok ← orderIsCorrect this "pseudoClass";
  (if negb ok then throw OrderViolationError else mret ());;
  t ← get_template this;
  set_template this (plus_assign t (":" +:+ value));;
  mret this.

Definition pseudoElement (this : ref) (value : string) : Exec ref :=
  sel ← get_selectors this;
  (if has sel (str "pseudoElement") then throw DuplicateFragmentError
   else set_selectors this (add sel (str "pseudoElement")));;
  t ← get_template this;
  set_template this (plus_assign t ("::" +:+ value));;
  mret this.

(** [combine(...args)], for string arguments. *)
Definition combine (this : ref) (args : list string) : Exec ref :=
  set_template this (str (join " " args));;
  mret this.

Definition stringify (this : ref) : Exec value :=
  get_template this.

End Selector.

(** ** The facade object cssSelectorBuilder *)

Module cssSelectorBuilder.

Definition element (value : string) : Exec ref :=
  Selector.new (str value) (str "element").

Definition id (value : string) : Exec ref :=
  Selector.new (str ("#" +:+ value)) (str "id").

Definition class (value : string) : Exec ref :=
  Selector.new (str ("." +:+ value)) (str "class").

Definition attr (value : string) : Exec ref :=
  Selector.new (str ("[" +:+ value +:+ "]")) (str "attr").

Definition pseudoClass (value : string) : Exec ref :=
  Selector.new (str (":" +:+ value)) (str "pseudoClass").

Definition pseudoElement (value : string) : Exec ref :=
  Selector.new (str ("::" +:+ value)) (str "pseudoElement").

(** The template literal reads [selector1.template] and
    [selector2.template]; the second constructor argument is omitted. *)
Definition combine (selector1 : ref) (combinator : string) (selector2 : ref)
    : Exec ref :=
  t1 ← get_template selector1;
  t2 ← get_template selector2;
  Selector.new
    (str (ToString t1 +:+ " " +:+ combinator +:+ " " +:+ ToString t2))
    undefined.

(** [new Selector().template]: both constructor arguments omitted. *)
Definition stringify : Exec value :=
  r ← Selector.new undefined undefined;
  get_template r.

End cssSelectorBuilder.

(** ** Fragment kinds and chains of calls *)

Inductive kind : Type :=
  | Element | Id | Class | Attribute | PseudoClass | PseudoElement.

(** The name under which the source records a kind in [selectors] and
    lists it in [order]. *)
Definition kind_name (k : kind) : string :=
  match k with
  | Element => "element"
  | Id => "id"
  | Class => "class"
  | Attribute => "attr"
  | PseudoClass => "pseudoClass"
  | PseudoElement => "pseudoElement"
  end.

(** Position in Element < Id < Class < Attribute < PseudoClass < PseudoElement. *)
Definition rank (k : kind) : nat :=
  match k with
  | Element => 0
  | Id => 1
  | Class => 2
  | Attribute => 3
  | PseudoClass => 4
  | PseudoElement => 5
  end.

(** The text one fragment contributes to the selector. *)
Definition fragment (k : kind) (v : string) : string :=
  match k with
  | Element => v
  | Id => "#" +:+ v
  | Class => "." +:+ v
  | Attribute => "[" +:+ v +:+ "]"
  | PseudoClass => ":" +:+ v
  | PseudoElement => "::" +:+ v
  end.

(** The kinds that may occur several times in one selector. *)
Definition repeatable (k : kind) : bool :=
  match k with
  | Class | Attribute | PseudoClass => true
  | Element | Id | PseudoElement => false
  end.

(** The chains the selector grammar allows after a fragment of kind
    [prev]: ranks never decrease, and only a repeatable kind follows a
    fragment of its own kind. *)
Fixpoint ordered (prev : kind) (calls : list (kind * string)) : bool :=
  match calls with
  | [] => true
  | (k, _) :: calls' =>
      ((rank prev <? rank k)%nat || ((rank prev =? rank k)%nat && repeatable k))
      && ordered k calls'
  end.

(** The facade entry method and the instance method of each kind. *)
Definition facade_call (k : kind) : string → Exec ref :=
  match k with
  | Element => cssSelectorBuilder.element
  | Id => cssSelectorBuilder.id
  | Class => cssSelectorBuilder.class
  | Attribute => cssSelectorBuilder.attr
  | PseudoClass => cssSelectorBuilder.pseudoClass
  | PseudoElement => cssSelectorBuilder.pseudoElement
  end.

Definition instance_call (k : kind) : ref → string → Exec ref :=
  match k with
  | Element => Selector.element
  | Id => Selector.id
  | Class => Selector.class
  | Attribute => Selector.attr
  | PseudoClass => Selector.pseudoClass
  | PseudoElement => Selector.pseudoElement
  end.

(** [r.k1(v1).k2(v2)...]: every call is made on the value the previous one
    returned; the first [throw] ends the chain. *)
Fixpoint chain (calls : list (kind * string)) (r : ref) : Exec ref :=
  match calls with
  | [] => mret r
  | (k, v) :: calls' => r' ← instance_call k r v; chain calls' r'
  end.

Fixpoint fragments (calls : list (kind * string)) : string :=
  match calls with
  | [] => ""
  | (k, v) :: calls' => fragment k v +:+ fragments calls'
  end.

(** ** The checks as functions of the object behind [this] *)

(** The boolean computed by [orderIsCorrect] from the fields of [this]. *)
Definition order_ok (o : Selector_obj) (currentSelector : string) : bool :=
  let indexInOrder := indexOf (order o) currentSelector in
  let nextSelectors :=
    slice (order o) (indexInOrder + 1) (Z.of_nat (length (order o))) in
  negb (some (λ selector, has (selectors o) (str selector)) nextSelectors).

Definition with_template (o : Selector_obj) (t : value) : Selector_obj :=
  mkSelector t (selectors o) (order o).

Definition with_selectors (o : Selector_obj) (s : gset value) : Selector_obj :=
  mkSelector (template o) s (order o).

(** ** Builder expressions used below *)

(** The first example of the source's doc comment. *)
Definition exC6 : Exec value :=
  r ← cssSelectorBuilder.id "main";
  r ← Selector.class r "container";
  r ← Selector.class r "editable";
  Selector.stringify r.

(** [element('div').id('main')] and [element('table').id('data')]. *)
Definition exC7_operands : Exec (ref * ref) :=
  a ← cssSelectorBuilder.element "div";
  a ← Selector.id a "main";
  b ← cssSelectorBuilder.element "table";
  b ← Selector.id b "data";
  mret (a, b).

(** The nested expression of the source's doc comment. *)
Definition exC7_nested : Exec value :=
  a ← cssSelectorBuilder.element "div";
  a ← Selector.id a "main";
  a ← Selector.class a "container";
  a ← Selector.class a "draggable";
  b ← cssSelectorBuilder.element "table";
  b ← Selector.id b "data";
  c ← cssSelectorBuilder.element "tr";
  c ← Selector.pseudoClass c "nth-of-type(even)";
  d ← cssSelectorBuilder.element "td";
  d ← Selector.pseudoClass d "nth-of-type(even)";
  cd ← cssSelectorBuilder.combine c " " d;
  bcd ← cssSelectorBuilder.combine b "~" cd;
  abcd ← cssSelectorBuilder.combine a "+" bcd;
  Selector.stringify abcd.

(** [element('a')] and [element('b')], to be combined. *)
Definition exC10_operands : Exec (ref * ref) :=
  a ← cssSelectorBuilder.element "a";
  b ← cssSelectorBuilder.element "b";
  mret (a, b).

(** [element('a').class('b').id('c').stringify()]. *)
Definition exC1 : Exec value :=
  r ← cssSelectorBuilder.element "a";
  r ← Selector.class r "b";
  r ← Selector.id r "c";
  Selector.stringify r.

(** [class('a').attr('b').class('c')] and [class('a').class('b').attr('c')]. *)
Definition exC2_interleaved : Exec value :=
  r ← cssSelectorBuilder.class "a";
  r ← Selector.attr r "b";
  r ← Selector.class r "c";
  Selector.stringify r.

Definition exC2_contiguous : Exec value :=
  r ← cssSelectorBuilder.class "a";
  r ← Selector.class r "b";
  r ← Selector.attr r "c";
  Selector.stringify r.

(** [combine(element('a'), '+', element('b')).element('x').element('y')]. *)
Definition exC3 : Exec value :=
  a ← cssSelectorBuilder.element "a";
  b ← cssSelectorBuilder.element "b";
  r ← cssSelectorBuilder.combine a "+" b;
  r ← Selector.element r "x";
  r ← Selector.element r "y";
  Selector.stringify r.

(** ** Running the primitives of the store *)

Section run_primitives.
Context {A B : Type}.

Lemma bind_run (m : Exec A) (f : A → Exec B) (h : heap) :
  (m ≫= f) h =
    match m h with
    | (Normal a, h') => f a h'
    | (Throw msg, h') => (Throw msg, h')
    end.
Proof. reflexivity. Qed.

Lemma ret_run (a : A) (h : heap) : (mret a : Exec A) h = (Normal a, h).
Proof. reflexivity. Qed.

Lemma throw_run (msg : string) (h : heap) : @throw A msg h = (Throw msg, h).
Proof. reflexivity. Qed.
End run_primitives.

Lemma load_run (h : heap) (r : ref) (o : Selector_obj) :
  h !! r = Some o → load r h = (Normal o, h).
Proof. intros Hr. unfold load. by rewrite Hr. Qed.

Lemma load_dangling (h : heap) (r : ref) :
  h !! r = None → load r h = (Throw TypeError, h).
Proof. intros Hr. unfold load. by rewrite Hr. Qed.

Lemma get_template_run (h : heap) (r : ref) (o : Selector_obj) :
  h !! r = Some o → get_template r h = (Normal (template o), h).
Proof. intros Hr. unfold get_template. by rewrite bind_run, (load_run _ _ _ Hr). Qed.

Lemma get_selectors_run (h : heap) (r : ref) (o : Selector_obj) :
  h !! r = Some o → get_selectors r h = (Normal (selectors o), h).
Proof. intros Hr. unfold get_selectors. by rewrite bind_run, (load_run _ _ _ Hr). Qed.

Lemma get_order_run (h : heap) (r : ref) (o : Selector_obj) :
  h !! r = Some o → get_order r h = (Normal (order o), h).
Proof. intros Hr. unfold get_order. by rewrite bind_run, (load_run _ _ _ Hr). Qed.

Lemma set_template_run (h : heap) (r : ref) (o : Selector_obj) (t : value) :
  h !! r = Some o →
  set_template r t h = (Normal (), <[ r := mkSelector t (selectors o) (order o) ]> h).
Proof. intros Hr. unfold set_template. by rewrite bind_run, (load_run _ _ _ Hr). Qed.

Lemma set_selectors_run (h : heap) (r : ref) (o : Selector_obj) (s : gset value) :
  h !! r = Some o →
  set_selectors r s h = (Normal (), <[ r := mkSelector (template o) s (order o) ]> h).
Proof. intros Hr. unfold set_selectors. by rewrite bind_run, (load_run _ _ _ Hr). Qed.

Lemma lookup_updated (h : heap) (r : ref) (o o' : Selector_obj) :
  h !! r = Some o → <[ r := o' ]> h !! r = Some o'.
Proof. intros Hr. apply list_lookup_insert_eq. by eapply lookup_lt_Some. Qed.

(** ** The methods, run on the object behind [this] *)

Lemma orderIsCorrect_run (h : heap) (r : ref) (o : Selector_obj) (k : string) :
  h !! r = Some o →
  Selector.orderIsCorrect r k h = (Normal (order_ok o k), h).
Proof.
  intros Hr. unfold Selector.orderIsCorrect.
  rewrite bind_run, (get_order_run _ _ _ Hr).
  by rewrite bind_run, (get_selectors_run _ _ _ Hr).
Qed.

(** Methods that only run the order check: [class], [attr], [pseudoClass]. *)
Lemma checked_append_run (h : heap) (r : ref) (o : Selector_obj) (k frag : string) :
  h !! r = Some o →
  (ok ← Selector.orderIsCorrect r k;
   (if negb ok then throw OrderViolationError else mret ());;
   t ← get_template r;
   set_template r (plus_assign t frag);;
   mret r) h =
  if order_ok o k
  then (Normal r, <[ r := with_template o (plus_assign (template o) frag) ]> h)
  else (Throw OrderViolationError, h).
Proof.
  intros Hr. rewrite bind_run, (orderIsCorrect_run _ _ _ _ Hr).
  destruct (order_ok o k); [|reflexivity].
  cbn [negb]. rewrite bind_run, ret_run, bind_run, (get_template_run _ _ _ Hr).
  by rewrite bind_run, (set_template_run _ _ _ _ Hr).
Qed.

Lemma class_run (h : heap) (r : ref) (o : Selector_obj) (v : string) :
  h !! r = Some o →
  Selector.class r v h =
  if order_ok o "class"
  then (Normal r, <[ r := with_template o (plus_assign (template o) ("." +:+ v)) ]> h)
  else (Throw OrderViolationError, h).
Proof. apply checked_append_run. Qed.

Lemma attr_run (h : heap) (r : ref) (o : Selector_obj) (v : string) :
  h !! r = Some o →
  Selector.attr r v h =
  if order_ok o "attr"
  then (Normal r, <[ r := with_template o (plus_assign (template o) ("[" +:+ v +:+ "]")) ]> h)
  else (Throw OrderViolationError, h).
Proof. apply checked_append_run. Qed.

Lemma pseudoClass_run (h : heap) (r : ref) (o : Selector_obj) (v : string) :
  h !! r = Some o →
  Selector.pseudoClass r v h =
  if order_ok o "pseudoClass"
  then (Normal r, <[ r := with_template o (plus_assign (template o) (":" +:+ v)) ]> h)
  else (Throw OrderViolationError, h).
Proof. apply checked_append_run. Qed.

Lemma element_run (h : heap) (r : ref) (o : Selector_obj) (v : string) :
  h !! r = Some o →
  Selector.element r v h =
  if has (selectors o) (str "element") then (Throw DuplicateFragmentError, h)
  else if order_ok o "element"
  then (Normal r, <[ r := with_template o (plus_assign (template o) v) ]> h)
  else (Throw OrderViolationError, h).
Proof.
  intros Hr. unfold Selector.element.
  rewrite bind_run, (get_selectors_run _ _ _ Hr).
  destruct (has (selectors o) (str "element")); [reflexivity|].
  rewrite bind_run, ret_run. by apply checked_append_run.
Qed.

(** [id] records its kind between the duplicate check and the order check. *)
Lemma id_run (h : heap) (r : ref) (o : Selector_obj) (v : string) :
  h !! r = Some o →
  Selector.id r v h =
  if has (selectors o) (str "id") then (Throw DuplicateFragmentError, h)
  else
    let o1 := with_selectors o (add (selectors o) (str "id")) in
    if order_ok o1 "id"
    then (Normal r, <[ r := with_template o1 (plus_assign (template o) ("#" +:+ v)) ]> h)
    else (Throw OrderViolationError, <[ r := o1 ]> h).
Proof.
  intros Hr. unfold Selector.id.
  rewrite bind_run, (get_selectors_run _ _ _ Hr).
  destruct (has (selectors o) (str "id")); [reflexivity|].
  rewrite bind_run, (set_selectors_run _ _ _ _ Hr).
  set (o1 := mkSelector _ _ _).
  rewrite (checked_append_run _ _ o1); [|by eapply lookup_updated].
  cbn zeta. fold o1. change (with_selectors o _) with o1.
  destruct (order_ok o1 "id"); [|reflexivity].
  by rewrite list_insert_insert_eq.
Qed.

Lemma pseudoElement_run (h : heap) (r : ref) (o : Selector_obj) (v : string) :
  h !! r = Some o →
  Selector.pseudoElement r v h =
  if has (selectors o) (str "pseudoElement") then (Throw DuplicateFragmentError, h)
  else
    let o1 := with_selectors o (add (selectors o) (str "pseudoElement")) in
    (Normal r, <[ r := with_template o1 (plus_assign (template o) ("::" +:+ v)) ]> h).
Proof.
  intros Hr. unfold Selector.pseudoElement.
  rewrite bind_run, (get_selectors_run _ _ _ Hr).
  destruct (has (selectors o) (str "pseudoElement")); [reflexivity|].
  rewrite bind_run, (set_selectors_run _ _ _ _ Hr).
  set (o1 := mkSelector _ _ _).
  assert (Hr1 : <[ r := o1 ]> h !! r = Some o1) by by eapply lookup_updated.
  rewrite bind_run, (get_template_run _ _ _ Hr1).
  rewrite bind_run, (set_template_run _ _ _ _ Hr1).
  by rewrite list_insert_insert_eq.
Qed.

Lemma stringify_run (h : heap) (r : ref) (o : Selector_obj) :
  h !! r = Some o → Selector.stringify r h = (Normal (template o), h).
Proof. apply get_template_run. Qed.

Lemma new_run (h : heap) (start startSelector : value) :
  Selector.new start startSelector h =
  (Normal (length h), h ++ [Selector.constructor start startSelector]).
Proof. reflexivity. Qed.

(** ** Strings *)

Lemma string_app_assoc (s1 s2 s3 : string) :
  (s1 +:+ s2) +:+ s3 = s1 +:+ (s2 +:+ s3).
Proof.
  induction s1 as [|a s1 IH]; [reflexivity|].
  change (String a ((s1 +:+ s2) +:+ s3) = String a (s1 +:+ (s2 +:+ s3))).
  by rewrite IH.
Qed.

Lemma string_app_nil_r (s : string) : s +:+ "" = s.
Proof.
  induction s as [|a s IH]; [reflexivity|].
  change (String a (s +:+ "") = String a s). by rewrite IH.
Qed.

(** ** One instance call, uniformly in the kind *)

Lemma instance_call_dangling (k : kind) (h : heap) (r : ref) (v : string) :
  h !! r = None → instance_call k r v h = (Throw TypeError, h).
Proof.
  intros Hr.
  destruct k; cbv [instance_call];
    unfold Selector.element, Selector.id, Selector.class, Selector.attr,
      Selector.pseudoClass, Selector.pseudoElement, Selector.orderIsCorrect,
      get_selectors, get_order;
    by rewrite !bind_run, (load_dangling _ _ Hr).
Qed.

(** A call that returns has returned [this], left every other object
    alone, and appended exactly its fragment to the template. *)
Lemma instance_call_Normal (k : kind) (h h' : heap) (r r' : ref) (v : string) :
  instance_call k r v h = (Normal r', h') →
  r' = r ∧ ∃ o o',
    h !! r = Some o ∧ h' = <[ r := o' ]> h ∧
    template o' = plus_assign (template o) (fragment k v) ∧
    order o' = order o ∧ selectors o ⊆ selectors o'.
Proof.
  destruct (h !! r) as [o|] eqn:Hr;
    [|by rewrite (instance_call_dangling _ _ _ _ Hr)].
  destruct k; cbv [instance_call fragment].
  - rewrite (element_run _ _ _ _ Hr).
    repeat case_match; intros [= <- <-]; split; [done|].
    eexists o, _. by repeat split.
  - rewrite (id_run _ _ _ _ Hr). cbv zeta.
    repeat case_match; intros [= <- <-]; split; [done|].
    eexists o, _. repeat split; [done..|]. cbn. unfold add. set_solver.
  - rewrite (class_run _ _ _ _ Hr).
    repeat case_match; intros [= <- <-]; split; [done|].
    eexists o, _. by repeat split.
  - rewrite (attr_run _ _ _ _ Hr).
    repeat case_match; intros [= <- <-]; split; [done|].
    eexists o, _. by repeat split.
  - rewrite (pseudoClass_run _ _ _ _ Hr).
    repeat case_match; intros [= <- <-]; split; [done|].
    eexists o, _. by repeat split.
  - rewrite (pseudoElement_run _ _ _ _ Hr). cbv zeta.
    repeat case_match; intros [= <- <-]; split; [done|].
    eexists o, _. repeat split; [done..|]. cbn. unfold add. set_solver.
Qed.

Lemma chain_Normal (calls : list (kind * string)) (h h' : heap) (r r' : ref)
    (o : Selector_obj) (t : string) :
  h !! r = Some o → template o = str t →
  chain calls r h = (Normal r', h') →
  r' = r ∧ ∃ o',
    h' !! r = Some o' ∧ template o' = str (t +:+ fragments calls).
Proof.
  revert h r o t. induction calls as [|[k v] calls IH]; intros h r o t Hr Ht.
  - intros [= <- <-]. split; [done|]. exists o.
    by rewrite string_app_nil_r.
  - cbn [chain fragments]. rewrite bind_run.
    destruct (instance_call k r v h) as [[r1|msg] h1] eqn:Hcall; [|done].
    apply instance_call_Normal in Hcall
      as (-> & o0 & o1 & Hr0 & -> & Ht1 & _).
    assert (o0 = o) as -> by congruence.
    intros Hchain.
    eapply (IH _ _ o1 (t +:+ fragment k v)) in Hchain as (-> & o' & Hr' & Ht').
    + split; [done|]. exists o'. by rewrite <- string_app_assoc.
    + by eapply lookup_updated.
    + by rewrite Ht1, Ht.
Qed.

Lemma lookup_new (h : heap) (o : Selector_obj) : (h ++ [o]) !! length h = Some o.
Proof. by rewrite lookup_app_r, Nat.sub_diag. Qed.

Lemma get_template_dangling (h : heap) (r : ref) :
  h !! r = None → get_template r h = (Throw TypeError, h).
Proof.
  intros Hr. unfold get_template. by rewrite bind_run, (load_dangling _ _ Hr).
Qed.

Lemma stringify_Normal (h : heap) (r : ref) (v : value) :
  fst (Selector.stringify r h) = Normal v →
  ∃ o, h !! r = Some o ∧ template o = v.
Proof.
  destruct (h !! r) as [o|] eqn:Hr.
  - rewrite (stringify_run _ _ _ Hr). intros [= <-]. by exists o.
  - unfold Selector.stringify. by rewrite (get_template_dangling _ _ Hr).
Qed.

Lemma combine_run (h : heap) (a b : ref) (c : string) (oa ob : Selector_obj) :
  h !! a = Some oa → h !! b = Some ob →
  cssSelectorBuilder.combine a c b h =
  (Normal (length h),
   h ++ [Selector.constructor
           (str (ToString (template oa) +:+ " " +:+ c +:+ " " +:+ ToString (template ob)))
           undefined]).
Proof.
  intros Ha Hb. unfold cssSelectorBuilder.combine.
  rewrite bind_run, (get_template_run _ _ _ Ha).
  by rewrite bind_run, (get_template_run _ _ _ Hb).
Qed.

(** Whatever [combine] does, the objects that existed before are a prefix
    of the store it leaves. *)
Lemma combine_extends (h : heap) (a b : ref) (c : string) :
  snd (cssSelectorBuilder.combine a c b h) = h ∨
  ∃ o, snd (cssSelectorBuilder.combine a c b h) = h ++ [o].
Proof.
  destruct (h !! a) as [oa|] eqn:Ha; [destruct (h !! b) as [ob|] eqn:Hb|].
  - right. eexists. by rewrite (combine_run _ _ _ _ _ _ Ha Hb).
  - left. unfold cssSelectorBuilder.combine.
    rewrite bind_run, (get_template_run _ _ _ Ha).
    by rewrite bind_run, (get_template_dangling _ _ Hb).
  - left. unfold cssSelectorBuilder.combine.
    by rewrite bind_run, (get_template_dangling _ _ Ha).
Qed.

(** Claim C7: for builders [a] and [b] whose [stringify()] gives [va] and
    [vb], and every combinator [c], [combine(a, c, b)] returns a reference
    to an object that did not exist before, distinct from both operands,
    whose rendered text is [va], a space, [c], a space, [vb], character for
    character. *)
Theorem C7_combine_rendered_text (h : heap) (a b : ref) (c : string)
    (va vb : value) :
  fst (Selector.stringify a h) = Normal va →
  fst (Selector.stringify b h) = Normal vb →
  ∃ (r : ref) (h' : heap),
    cssSelectorBuilder.combine a c b h = (Normal r, h') ∧
    h !! r = None ∧ r ≠ a ∧ r ≠ b ∧
    Selector.stringify r h' =
      (Normal (str (ToString va +:+ " " +:+ c +:+ " " +:+ ToString vb)), h').
Proof.
  intros (oa & Ha & <-)%stringify_Normal (ob & Hb & <-)%stringify_Normal.
  eexists _, _. split; [by apply combine_run|].
  pose proof (lookup_lt_Some _ _ _ Ha). pose proof (lookup_lt_Some _ _ _ Hb).
  repeat split.
  - by apply lookup_ge_None_2.
  - lia.
  - lia.
  - by rewrite (stringify_run _ _ _ (lookup_new _ _)).
Qed.

Lemma C7_combine_rendered_text_witness :
  let h := snd (exC7_operands []) in
  fst (exC7_operands []) = Normal (0%nat, 1%nat) ∧
  fst (Selector.stringify 0%nat h) = Normal (str "div#main") ∧
  fst (Selector.stringify 1%nat h) = Normal (str "table#data") ∧
  ∃ (r : ref) (h' : heap),
    cssSelectorBuilder.combine 0%nat "+" 1%nat h = (Normal r, h') ∧
    h !! r = None ∧ r ≠ 0%nat ∧ r ≠ 1%nat ∧
    Selector.stringify r h' = (Normal (str "div#main + table#data"), h').
Proof.
  intros h. split; [by vm_compute|]. split; [by vm_compute|].
  split; [by vm_compute|].
  apply (C7_combine_rendered_text h 0%nat 1%nat "+"
           (str "div#main") (str "table#data")); by vm_compute.
Defined.

Example nested_combine_keeps_spaces :
  fst (exC7_nested []) =
  Normal (str "div#main.container.draggable + table#data ~ tr:nth-of-type(even)   td:nth-of-type(even)").
Proof. by vm_compute. Qed.

(** Claim C8: [combine(a, c, b)] does not mutate its operands:
    [a.stringify()] and [b.stringify()] give afterwards what they gave
    before, and every object that existed before the call is unchanged. *)
Theorem C8_combine_leaves_operands (h : heap) (a b : ref) (c : string) :
  let h' := snd (cssSelectorBuilder.combine a c b h) in
  fst (Selector.stringify a h') = fst (Selector.stringify a h) ∧
  fst (Selector.stringify b h') = fst (Selector.stringify b h) ∧
  take (length h) h' = h.
Proof.
  intros h'. subst h'.
  destruct (combine_extends h a b c) as [->|[o Ho]]; [by rewrite firstn_all|].
  rewrite Ho, take_app_length.
  destruct (h !! a) as [oa|] eqn:Ha; [destruct (h !! b) as [ob|] eqn:Hb|].
  - assert (Ha' : (h ++ [o]) !! a = Some oa).
    { rewrite lookup_app_l; [done|by eapply lookup_lt_Some]. }
    assert (Hb' : (h ++ [o]) !! b = Some ob).
    { rewrite lookup_app_l; [done|by eapply lookup_lt_Some]. }
    by rewrite (stringify_run _ _ _ Ha), (stringify_run _ _ _ Ha'),
      (stringify_run _ _ _ Hb), (stringify_run _ _ _ Hb').
  - exfalso. revert Ho. unfold cssSelectorBuilder.combine.
    rewrite bind_run, (get_template_run _ _ _ Ha).
    rewrite bind_run, (get_template_dangling _ _ Hb). cbn [snd].
    intros Heq%(f_equal length). rewrite length_app in Heq. cbn in Heq. lia.
  - exfalso. revert Ho. unfold cssSelectorBuilder.combine.
    rewrite bind_run, (get_template_dangling _ _ Ha). cbn [snd].
    intros Heq%(f_equal length). rewrite length_app in Heq. cbn in Heq. lia.
Qed.

(** Claim C9: [stringify()] on an instance is a read-only projection: it
    leaves the store as it was, and any number of successive calls return
    the same value as the first. *)
Theorem C9_stringify_read_only (h : heap) (r : ref) :
  snd (Selector.stringify r h) = h ∧
  ∀ n : nat,
    Nat.iter n (λ h0, snd (Selector.stringify r h0)) h = h ∧
    fst (Selector.stringify r (Nat.iter n (λ h0, snd (Selector.stringify r h0)) h))
      = fst (Selector.stringify r h).
Proof.
  assert (Hsnd : ∀ h0 : heap, snd (Selector.stringify r h0) = h0).
  { intros h0. destruct (h0 !! r) as [o|] eqn:Hr.
    - by rewrite (stringify_run _ _ _ Hr).
    - unfold Selector.stringify. by rewrite (get_template_dangling _ _ Hr). }
  split; [apply Hsnd|].
  assert (Hiter : ∀ n : nat,
    Nat.iter n (λ h0, snd (Selector.stringify r h0)) h = h).
  { induction n as [|n IH]; [done|]. rewrite Nat.iter_succ. by rewrite Hsnd. }
  intros n. by rewrite Hiter.
Qed.

(** Claim C5, evaluated on the source: [cssSelectorBuilder.stringify()]
    returns the [template] of [new Selector()], which is [undefined] since
    the constructor received no [start]; it is not the empty string. *)
Theorem C5_facade_stringify_is_undefined (h : heap) :
  fst (cssSelectorBuilder.stringify h) = Normal undefined ∧
  fst (cssSelectorBuilder.stringify h) ≠ Normal (str "").
Proof.
  assert (Hrun : fst (cssSelectorBuilder.stringify h) = Normal undefined).
  { unfold cssSelectorBuilder.stringify.
    by rewrite bind_run, new_run, (get_template_run _ _ _ (lookup_new _ _)). }
  split; [done|]. by rewrite Hrun.
Qed.

(** ** What the checks of one call depend on *)

Lemma facade_call_run (k : kind) (v : string) (h : heap) :
  facade_call k v h =
  (Normal (length h),
   h ++ [Selector.constructor (str (fragment k v)) (str (kind_name k))]).
Proof. by destruct k. Qed.

(** A call that throws leaves the store as it was, except when [id] fails
    its order check: the kind is then already recorded. *)
Lemma instance_call_Throw (k : kind) (h h' : heap) (r : ref) (v msg : string) :
  instance_call k r v h = (Throw msg, h') →
  (k = Id ∧ msg = OrderViolationError ∧ ∃ o,
     h !! r = Some o ∧
     h' = <[ r := with_selectors o (add (selectors o) (str "id")) ]> h)
  ∨ h' = h.
Proof.
  destruct (h !! r) as [o|] eqn:Hr;
    [|rewrite (instance_call_dangling _ _ _ _ Hr); intros [= <- <-]; by right].
  destruct k; cbv [instance_call].
  - rewrite (element_run _ _ _ _ Hr).
    repeat case_match; intros [= <- <-]; by right.
  - rewrite (id_run _ _ _ _ Hr). cbv zeta.
    repeat case_match; intros [= <- <-]; [by right|].
    left. repeat split; [done..|]. by exists o.
  - rewrite (class_run _ _ _ _ Hr).
    repeat case_match; intros [= <- <-]; by right.
  - rewrite (attr_run _ _ _ _ Hr).
    repeat case_match; intros [= <- <-]; by right.
  - rewrite (pseudoClass_run _ _ _ _ Hr).
    repeat case_match; intros [= <- <-]; by right.
  - rewrite (pseudoElement_run _ _ _ _ Hr). cbv zeta.
    repeat case_match; intros [= <- <-]; by right.
Qed.

(** No call that throws changes the rendered text of any object. *)
Lemma instance_call_Throw_template (k : kind) (h h' : heap) (r : ref)
    (v msg : string) :
  instance_call k r v h = (Throw msg, h') →
  template <$> h' = template <$> h.
Proof.
  intros [(_ & _ & o & Hr & ->)| ->]%instance_call_Throw; [|done].
  rewrite list_fmap_insert. cbn. apply list_insert_id.
  by rewrite list_lookup_fmap, Hr.
Qed.

(** The order check against the kind that seeded the instance. *)
Lemma seed_order_enforced (k0 k : kind) (v0 v : string) (h : heap) :
  (rank k < rank k0)%nat →
  fst ((r ← facade_call k0 v0; instance_call k r v) h) = Throw OrderViolationError.
Proof.
  intros Hlt. rewrite bind_run, facade_call_run.
  pose proof (lookup_new h
    (Selector.constructor (str (fragment k0 v0)) (str (kind_name k0)))) as Hr.
  destruct k; cbv [instance_call];
    [ rewrite (element_run _ _ _ _ Hr) | rewrite (id_run _ _ _ _ Hr)
    | rewrite (class_run _ _ _ _ Hr) | rewrite (attr_run _ _ _ _ Hr)
    | rewrite (pseudoClass_run _ _ _ _ Hr)
    | rewrite (pseudoElement_run _ _ _ _ Hr) ];
    destruct k0; cbn [rank] in Hlt; try lia; by vm_compute.
Qed.

(** The duplicate check against the kind that seeded the instance. *)
Lemma seed_duplicate_enforced (k : kind) (v0 v : string) (h : heap) :
  k = Element ∨ k = Id ∨ k = PseudoElement →
  fst ((r ← facade_call k v0; instance_call k r v) h) = Throw DuplicateFragmentError.
Proof.
  intros Hk. rewrite bind_run, facade_call_run.
  pose proof (lookup_new h
    (Selector.constructor (str (fragment k v0)) (str (kind_name k)))) as Hr.
  destruct Hk as [->|[->| ->]]; cbv [instance_call];
    [ rewrite (element_run _ _ _ _ Hr) | rewrite (id_run _ _ _ _ Hr)
    | rewrite (pseudoElement_run _ _ _ _ Hr) ]; by vm_compute.
Qed.

(** [id] and [pseudoElement] record their kind, so a second call on the
    same instance is refused whatever happened in between to the text. *)
Lemma id_then_id (h h' : heap) (r r' : ref) (v w : string) :
  Selector.id r v h = (Normal r', h') →
  Selector.id r' w h' = (Throw DuplicateFragmentError, h').
Proof.
  destruct (h !! r) as [o|] eqn:Hr;
    [|by rewrite (instance_call_dangling Id _ _ _ Hr)].
  rewrite (id_run _ _ _ _ Hr). cbv zeta.
  repeat case_match; intros [= <- <-].
  erewrite id_run; [|by eapply lookup_updated].
  cbn [with_template with_selectors selectors].
  unfold has, add. rewrite bool_decide_eq_true_2; [done|set_solver].
Qed.

Lemma pseudoElement_then_pseudoElement (h h' : heap) (r r' : ref) (v w : string) :
  Selector.pseudoElement r v h = (Normal r', h') →
  Selector.pseudoElement r' w h' = (Throw DuplicateFragmentError, h').
Proof.
  destruct (h !! r) as [o|] eqn:Hr;
    [|by rewrite (instance_call_dangling PseudoElement _ _ _ Hr)].
  rewrite (pseudoElement_run _ _ _ _ Hr). cbv zeta.
  repeat case_match; intros [= <- <-].
  erewrite pseudoElement_run; [|by eapply lookup_updated].
  cbn [with_template with_selectors selectors].
  unfold has, add. rewrite bool_decide_eq_true_2; [done|set_solver].
Qed.

(** [element], [class], [attr] and [pseudoClass] never write [selectors]. *)
Lemma unrecorded_kinds (k : kind) (h h' : heap) (r : ref) (v : string)
    (c : completion ref) :
  k ≠ Id → k ≠ PseudoElement →
  instance_call k r v h = (c, h') →
  selectors <$> h' = selectors <$> h.
Proof.
  intros Hid Hpe.
  destruct (h !! r) as [o|] eqn:Hr;
    [|rewrite (instance_call_dangling _ _ _ _ Hr); by intros [= <- <-]].
  assert (Hupd : ∀ t, selectors <$> <[ r := with_template o t ]> h = selectors <$> h).
  { intros t. rewrite list_fmap_insert. cbn. apply list_insert_id.
    by rewrite list_lookup_fmap, Hr. }
  destruct k; try done; cbv [instance_call];
    [ rewrite (element_run _ _ _ _ Hr) | rewrite (class_run _ _ _ _ Hr)
    | rewrite (attr_run _ _ _ _ Hr) | rewrite (pseudoClass_run _ _ _ _ Hr) ];
    repeat case_match; intros [= <- <-]; done.
Qed.

(** ** Repeated [element] calls *)

Lemma fragments_elements (vs : list string) :
  fragments ((λ v, (Element, v)) <$> vs) = String.concat "" vs.
Proof.
  induction vs as [|v vs IH]; [done|].
  rewrite fmap_cons. cbn [fragments fragment].
  rewrite IH. destruct vs as [|w vs]; [apply string_app_nil_r|done].
Qed.

(** While [selectors] holds neither "element" nor a later kind, [element]
    is accepted, and it leaves [selectors] as it found it. *)
Lemma elements_accepted (vs : list string) (h : heap) (r : ref)
    (o : Selector_obj) (t : string) :
  h !! r = Some o → template o = str t →
  has (selectors o) (str "element") = false →
  order_ok o "element" = true →
  ∃ o',
    chain ((λ v, (Element, v)) <$> vs) r h = (Normal r, <[ r := o' ]> h) ∧
    selectors o' = selectors o ∧
    template o' = str (t +:+ String.concat "" vs).
Proof.
  rewrite <- fragments_elements.
  revert h o t. induction vs as [|v vs IH]; intros h o t Hr Ht Hhas Hok.
  - exists o. cbn. rewrite list_insert_id by done.
    by rewrite string_app_nil_r.
  - rewrite fmap_cons. cbn [chain fragments fragment instance_call].
    rewrite bind_run, (element_run _ _ _ _ Hr), Hhas, Hok.
    set (o1 := with_template o (plus_assign (template o) v)).
    destruct (IH (<[ r := o1 ]> h) o1 (t +:+ v)) as (o' & Hchain & Hsel & Ht');
      [by eapply lookup_updated|by subst o1; cbn; rewrite Ht|done|done|].
    exists o'. rewrite Hchain, list_insert_insert_eq.
    by rewrite Ht', string_app_assoc.
Qed.

(** Claim C10: on the instance returned by the facade's [combine],
    [selectors] does not hold the Element kind, and any sequence of
    [element(v)] calls completes without an error, returns the same
    instance, leaves [selectors] as it was and appends every [v] verbatim
    to the rendered text. *)
Theorem C10_combined_instance_accepts_every_element (h h1 : heap)
    (a b r : ref) (c : string) (vs : list string) :
  cssSelectorBuilder.combine a c b h = (Normal r, h1) →
  ∃ (t : string) (h2 : heap) (o1 o2 : Selector_obj),
    h1 !! r = Some o1 ∧ h2 !! r = Some o2 ∧
    Selector.stringify r h1 = (Normal (str t), h1) ∧
    has (selectors o1) (str "element") = false ∧
    chain ((λ v, (Element, v)) <$> vs) r h1 = (Normal r, h2) ∧
    selectors o2 = selectors o1 ∧
    Selector.stringify r h2 = (Normal (str (t +:+ String.concat "" vs)), h2).
Proof.
  intros Hcomb.
  destruct (h !! a) as [oa|] eqn:Ha; [destruct (h !! b) as [ob|] eqn:Hb|].
  - rewrite (combine_run _ _ _ _ _ _ Ha Hb) in Hcomb.
    injection Hcomb as <- <-.
    set (o1 := Selector.constructor _ _).
    pose proof (lookup_new h o1) as Hr.
    destruct (elements_accepted vs _ _ o1 _ Hr eq_refl) as (o2 & Hchain & Hsel & Ht);
      [by vm_compute|by vm_compute|].
    assert (Hr2 : <[ length h := o2 ]> (h ++ [o1]) !! length h = Some o2)
      by by eapply lookup_updated.
    eexists _, _, o1, o2. repeat split; try done.
    + by rewrite (stringify_run _ _ _ Hr).
    + by rewrite (stringify_run _ _ _ Hr2), Ht.
  - revert Hcomb. unfold cssSelectorBuilder.combine.
    rewrite bind_run, (get_template_run _ _ _ Ha).
    by rewrite bind_run, (get_template_dangling _ _ Hb).
  - revert Hcomb. unfold cssSelectorBuilder.combine.
    by rewrite bind_run, (get_template_dangling _ _ Ha).
Qed.

Lemma C10_combined_instance_accepts_every_element_witness :
  let h := snd (exC10_operands []) in
  let h1 := snd (cssSelectorBuilder.combine 0%nat "+" 1%nat h) in
  cssSelectorBuilder.combine 0%nat "+" 1%nat h = (Normal 2%nat, h1) ∧
  ∃ (t : string) (h2 : heap) (o1 o2 : Selector_obj),
    h1 !! 2%nat = Some o1 ∧ h2 !! 2%nat = Some o2 ∧
    Selector.stringify 2%nat h1 = (Normal (str t), h1) ∧
    has (selectors o1) (str "element") = false ∧
    chain ((λ v, (Element, v)) <$> ["x"; "y"]) 2%nat h1 = (Normal 2%nat, h2) ∧
    selectors o2 = selectors o1 ∧
    Selector.stringify 2%nat h2 = (Normal (str (t +:+ String.concat "" ["x"; "y"])), h2).
Proof.
  intros h h1. split; [by vm_compute|].
  apply (C10_combined_instance_accepts_every_element h h1 0%nat 1%nat 2%nat "+").
  by vm_compute.
Defined.

(** ** The calls at which the source departs from the ordering and
    uniqueness rules *)

(** Claim C1, evaluated on the source: [class] does not record its kind,
    so in [element('a').class('b').id('c')] the call of [id] after [class]
    passes the order check; the chain renders [a.b#c] instead of throwing
    the order error. *)
Theorem C1_id_after_chained_class_is_accepted :
  fst (exC1 []) = Normal (str "a.b#c") ∧
  fst (exC1 []) ≠ Throw OrderViolationError.
Proof. split; by vm_compute. Qed.

(** Claim C2, evaluated on the source: neither [class] nor [attr] records
    its kind, so [class('a').attr('b').class('c')] is accepted and renders
    [.a[b].c] instead of throwing the order error; the contiguous
    [class('a').class('b').attr('c')] is accepted as well. *)
Theorem C2_class_attr_class_is_accepted :
  fst (exC2_interleaved []) = Normal (str ".a[b].c") ∧
  fst (exC2_interleaved []) ≠ Throw OrderViolationError ∧
  fst (exC2_contiguous []) = Normal (str ".a.b[c]").
Proof. repeat split; by vm_compute. Qed.

(** Claim C3, evaluated on the source: the instance method [element] does
    not record its kind, so on the instance returned by [combine] a second
    [element] call is accepted: the chain renders [a + bxy] instead of
    throwing the duplicate error. *)
Theorem C3_element_twice_on_combined_is_accepted :
  fst (exC3 []) = Normal (str "a + bxy") ∧
  fst (exC3 []) ≠ Throw DuplicateFragmentError.
Proof. split; by vm_compute. Qed.

(** Claim C4, evaluated on the source: [id] adds its kind to [selectors]
    between the duplicate check and the order check.  On [class('a')] the
    call [id('x')] throws the order error, the rendered text is unchanged,
    but [selectors] now holds the Id kind, which it did not before. *)
Theorem C4_id_records_its_kind_before_the_order_check :
  ∃ (h0 h1 : heap) (o0 o1 : Selector_obj),
    cssSelectorBuilder.class "a" [] = (Normal 0%nat, h0) ∧
    Selector.id 0%nat "x" h0 = (Throw OrderViolationError, h1) ∧
    h0 !! 0%nat = Some o0 ∧ h1 !! 0%nat = Some o1 ∧
    template o1 = template o0 ∧
    has (selectors o0) (str "id") = false ∧
    has (selectors o1) (str "id") = true ∧
    selectors o1 ≠ selectors o0.
Proof.
  eexists _, _, _, _.
  split; [reflexivity|]. split; [by vm_compute|].
  split; [reflexivity|]. split; [reflexivity|].
  split; [reflexivity|]. split; [by vm_compute|]. split; [by vm_compute|].
  intros Heq. apply (f_equal (λ s, has s (str "id"))) in Heq.
  by vm_compute in Heq.
Qed.

Lemma has_true (s : gset value) (v : value) : has s v = true ↔ v ∈ s.
Proof. unfold has. apply bool_decide_eq_true. Qed.

Lemma has_false (s : gset value) (v : value) : has s v = false ↔ v ∉ s.
Proof. unfold has. apply bool_decide_eq_false. Qed.

Ltac later_kind H :=
  first [ apply (H Element) | apply (H Id) | apply (H Class)
        | apply (H Attribute) | apply (H PseudoClass) | apply (H PseudoElement) ];
  cbn [rank]; lia.

(** The order check, for an object whose [order] is the list the
    constructor assigns: no kind listed after the current one is a member
    of [selectors]. *)
Lemma order_ok_spec (o : Selector_obj) (k : kind) :
  order o = order (Selector.constructor undefined undefined) →
  order_ok o (kind_name k) = true ↔
  ∀ k' : kind, (rank k < rank k')%nat → str (kind_name k') ∉ selectors o.
Proof.
  intros Hord. unfold order_ok. rewrite Hord.
  destruct k; cbv -[has selectors negb orb not elem_of rank lt];
    rewrite negb_true_iff; split.
  all: try (intros Hb k' Hlt Hin%has_true; destruct k'; cbn [rank] in Hlt;
            try lia; cbn [kind_name] in Hin; rewrite Hin in Hb;
            by rewrite ?orb_true_r in Hb).
  all: intros Hall; rewrite ?orb_false_iff; repeat split; try reflexivity;
       apply has_false; later_kind Hall.
Qed.

Lemma facade_ref_valid (k : kind) (v : string) (h h' : heap) (r : ref) :
  facade_call k v h = (Normal r, h') → is_Some (h' !! r).
Proof.
  rewrite facade_call_run. intros [= <- <-]. rewrite lookup_new. by eexists.
Qed.

Lemma instance_call_length (k : kind) (v : string) (h h' : heap) (r : ref)
    (c : completion ref) :
  instance_call k r v h = (c, h') → length h' = length h.
Proof.
  destruct c as [r'|msg].
  - intros (_ & o & o' & _ & -> & _)%instance_call_Normal. apply length_insert.
  - intros [(_ & _ & o & _ & ->)| ->]%instance_call_Throw; [|done].
    apply length_insert.
Qed.

(** What an accepted call guarantees: no later kind was a member of
    [selectors] when the call was made. *)
Lemma accepted_only_if_unrecorded (k : kind) (v : string) (h h' : heap)
    (r r' : ref) (o : Selector_obj) :
  h !! r = Some o →
  order o = order (Selector.constructor undefined undefined) →
  instance_call k r v h = (Normal r', h') →
  ∀ k' : kind, (rank k < rank k')%nat → str (kind_name k') ∉ selectors o.
Proof.
  intros Hr Hord Hcall.
  destruct k; cbv [instance_call] in Hcall.
  - rewrite (element_run _ _ _ _ Hr) in Hcall.
    apply (order_ok_spec o Element Hord). by repeat case_match.
  - rewrite (id_run _ _ _ _ Hr) in Hcall. cbv zeta in Hcall.
    set (o1 := with_selectors o _) in Hcall.
    assert (Hok : order_ok o1 (kind_name Id) = true) by by repeat case_match.
    intros k' Hlt Hin.
    apply (order_ok_spec o1 Id Hord) in Hlt as Hnot; [|done].
    apply Hnot. subst o1. cbn. unfold add. set_solver.
  - rewrite (class_run _ _ _ _ Hr) in Hcall.
    apply (order_ok_spec o Class Hord). by repeat case_match.
  - rewrite (attr_run _ _ _ _ Hr) in Hcall.
    apply (order_ok_spec o Attribute Hord). by repeat case_match.
  - rewrite (pseudoClass_run _ _ _ _ Hr) in Hcall.
    apply (order_ok_spec o PseudoClass Hord). by repeat case_match.
  - intros k' Hlt. destruct k'; cbn [rank] in Hlt; lia.
Qed.

(** ** Chains of repeatable kinds *)

Lemma repeatable_call_run (k : kind) (h : heap) (r : ref) (o : Selector_obj)
    (v : string) :
  repeatable k = true → h !! r = Some o →
  instance_call k r v h =
  if order_ok o (kind_name k)
  then (Normal r, <[ r := with_template o (plus_assign (template o) (fragment k v)) ]> h)
  else (Throw OrderViolationError, h).
Proof.
  intros Hk Hr. destruct k; try done; cbv [instance_call kind_name fragment].
  - by apply class_run.
  - by apply attr_run.
  - by apply pseudoClass_run.
Qed.

(** On an instance seeded with kind [k0] by the facade, calls of repeatable
    kinds are accepted in any order, provided none ranks below [k0]:
    [selectors] stays the singleton of the seed kind. *)
Lemma repeatable_chain_run (k0 : kind) (calls : list (kind * string))
    (h : heap) (r : ref) (o : Selector_obj) (t : string) :
  h !! r = Some o → template o = str t →
  order o = order (Selector.constructor undefined undefined) →
  selectors o = {[ str (kind_name k0) ]} →
  Forall (λ c, repeatable c.1 = true ∧ (rank k0 ≤ rank c.1)%nat) calls →
  ∃ o',
    chain calls r h = (Normal r, <[ r := o' ]> h) ∧
    template o' = str (t +:+ fragments calls).
Proof.
  intros Hr Ht Hord Hsel Hcalls. revert h o t Hr Ht Hord Hsel.
  induction Hcalls as [|[k v] calls [Hrep Hrank] _ IH];
    intros h o t Hr Ht Hord Hsel.
  - exists o. cbn. rewrite list_insert_id by done.
    by rewrite string_app_nil_r.
  - cbn [chain fragments]. cbn [fst] in Hrep, Hrank.
    rewrite bind_run, (repeatable_call_run _ _ _ _ _ Hrep Hr).
    assert (Hok : order_ok o (kind_name k) = true).
    { apply (order_ok_spec o k Hord). intros k' Hlt.
      rewrite Hsel. intros Hin%elem_of_singleton.
      destruct k', k0; try discriminate Hin; cbn [rank] in *; lia. }
    rewrite Hok.
    set (o1 := with_template o (plus_assign (template o) (fragment k v))).
    destruct (IH (<[ r := o1 ]> h) o1 (t +:+ fragment k v))
      as (o' & Hchain & Ht'); [by eapply lookup_updated| |done|done|].
    { subst o1. cbn. by rewrite Ht. }
    exists o'. rewrite Hchain, list_insert_insert_eq.
    by rewrite Ht', string_app_assoc.
Qed.

Lemma repeatable_chain_accepted (k0 : kind) (v0 : string)
    (calls : list (kind * string)) (h : heap) :
  Forall (λ c, repeatable c.1 = true ∧ (rank k0 ≤ rank c.1)%nat) calls →
  fst ((r ← facade_call k0 v0; r ← chain calls r; Selector.stringify r) h)
    = Normal (str (fragment k0 v0 +:+ fragments calls)).
Proof.
  intros Hcalls. rewrite bind_run, facade_call_run.
  set (o := Selector.constructor _ _).
  destruct (repeatable_chain_run k0 calls (h ++ [o]) (length h) o
              (fragment k0 v0)) as (o' & Hchain & Ht');
    [apply lookup_new|done|done|done|done|].
  rewrite bind_run, Hchain.
  erewrite stringify_run; [|by eapply lookup_updated, lookup_new].
  by rewrite Ht'.
Qed.

(** ** Further properties of [orderIsCorrect] *)

Lemma indexOf_from_absent (l : list string) (x : string) (i : Z) :
  x ∉ l → indexOf_from l x i = -1.
Proof.
  revert i. induction l as [|y l IH]; intros i Hx; [done|].
  cbn [indexOf_from]. destruct (String.eqb_spec y x) as [->|_].
  - exfalso. apply Hx. by left.
  - apply IH. intros Hin. apply Hx. by right.
Qed.

Lemma slice_whole {A : Type} (l : list A) :
  slice l 0 (Z.of_nat (length l)) = l.
Proof.
  unfold slice. cbn [Z.ltb Z.compare].
  destruct (Z.ltb_spec (Z.of_nat (length l)) 0) as [Hneg|_]; [lia|].
  rewrite Z.min_id, Z.min_l by lia.
  rewrite Z.sub_0_r, Nat2Z.id. cbn [Z.to_nat drop]. apply firstn_all.
Qed.

(** Property X1: on an instance whose [order] is the list assigned by the
    constructor, [orderIsCorrect] of a kind leaves the store as it is and
    answers true exactly when no kind ranked after it is a member of
    [selectors]. *)
Theorem X1_orderIsCorrect_spec (h : heap) (r : ref) (o : Selector_obj)
    (k : kind) :
  h !! r = Some o →
  order o = order (Selector.constructor undefined undefined) →
  ∃ b : bool,
    Selector.orderIsCorrect r (kind_name k) h = (Normal b, h) ∧
    (b = true ↔
     ∀ k' : kind, (rank k < rank k')%nat → str (kind_name k') ∉ selectors o).
Proof.
  intros Hr Hord. exists (order_ok o (kind_name k)).
  split; [by apply orderIsCorrect_run|by apply order_ok_spec].
Qed.

Lemma X1_orderIsCorrect_spec_witness :
  let o := Selector.constructor (str "#a") (str "id") in
  let h := snd (cssSelectorBuilder.id "a" []) in
  h !! 0%nat = Some o ∧
  order o = order (Selector.constructor undefined undefined) ∧
  ∃ b : bool,
    Selector.orderIsCorrect 0%nat (kind_name Class) h = (Normal b, h) ∧
    (b = true ↔
     ∀ k' : kind, (rank Class < rank k')%nat → str (kind_name k') ∉ selectors o).
Proof.
  intros o h. split; [reflexivity|]. split; [reflexivity|].
  apply (X1_orderIsCorrect_spec h 0%nat o Class); reflexivity.
Defined.

(** Property X2: for a name that [order] does not list, [indexOf] gives -1
    and the slice is the whole of [order]: [orderIsCorrect] then answers
    true exactly when [selectors] holds none of the listed kinds. *)
Theorem X2_orderIsCorrect_unlisted_name (h : heap) (r : ref)
    (o : Selector_obj) (name : string) :
  h !! r = Some o →
  name ∉ order o →
  Selector.orderIsCorrect r name h =
  (Normal (negb (some (λ selector, has (selectors o) (str selector)) (order o))), h).
Proof.
  intros Hr Hname. rewrite (orderIsCorrect_run _ _ _ _ Hr).
  unfold order_ok, indexOf. rewrite (indexOf_from_absent _ _ _ Hname).
  change (-1 + 1) with 0. by rewrite slice_whole.
Qed.

Lemma X2_orderIsCorrect_unlisted_name_witness :
  let o := Selector.constructor (str "#a") (str "id") in
  let h := snd (cssSelectorBuilder.id "a" []) in
  h !! 0%nat = Some o ∧
  ("span" ∉ order o) ∧
  Selector.orderIsCorrect 0%nat "span" h = (Normal false, h).
Proof.
  intros o h.
  assert (Hname : "span" ∉ order o).
  { apply (bool_decide_unpack _). by vm_compute. }
  split; [reflexivity|]. split; [exact Hname|].
  exact (X2_orderIsCorrect_unlisted_name h 0%nat o "span" eq_refl Hname).
Defined.

(** ** Further properties of the instance methods *)

Lemma chain_selectors_mono (calls : list (kind * string)) (h h' : heap)
    (r r' : ref) (o : Selector_obj) :
  h !! r = Some o →
  chain calls r h = (Normal r', h') →
  r' = r ∧ ∃ o',
    h' !! r = Some o' ∧ selectors o ⊆ selectors o' ∧ order o' = order o.
Proof.
  revert h r o. induction calls as [|[k v] calls IH]; intros h r o Hr.
  - intros [= <- <-]. split; [done|]. by exists o.
  - cbn [chain]. rewrite bind_run.
    destruct (instance_call k r v h) as [[r1|msg] h1] eqn:Hcall; [|done].
    apply instance_call_Normal in Hcall
      as (-> & o0 & o1 & Hr0 & -> & _ & Hord1 & Hsub1).
    assert (o0 = o) as -> by congruence.
    intros Hchain.
    destruct (IH _ _ o1 (lookup_updated _ _ _ o1 Hr0) Hchain)
      as (-> & o' & Hr' & Hsub' & Hord').
    split; [done|]. exists o'. split; [done|].
    split; [by etrans|congruence].
Qed.

(** Property X3: on an instance seeded by the facade with kind [k0], the
    instance method of every kind ranked below [k0] throws the order
    error. *)
Theorem X3_lower_kind_after_seed_throws (k0 k : kind) (v0 v : string)
    (h : heap) :
  (rank k < rank k0)%nat →
  fst ((r ← facade_call k0 v0; instance_call k r v) h)
    = Throw OrderViolationError.
Proof. apply seed_order_enforced. Qed.

Lemma X3_lower_kind_after_seed_throws_witness :
  (rank Id < rank Class)%nat ∧
  fst ((r ← facade_call Class "draggable"; instance_call Id r "main") [])
    = Throw OrderViolationError.
Proof.
  split; [cbn; lia|].
  apply (X3_lower_kind_after_seed_throws Class Id "draggable" "main" []).
  cbn; lia.
Defined.

(** Property X4: on an instance seeded by the facade with Element, Id or
    PseudoElement, the instance method of that same kind throws the
    duplicate error. *)
Theorem X4_seed_kind_again_throws (k : kind) (v0 v : string) (h : heap) :
  k = Element ∨ k = Id ∨ k = PseudoElement →
  fst ((r ← facade_call k v0; instance_call k r v) h)
    = Throw DuplicateFragmentError.
Proof. apply seed_duplicate_enforced. Qed.

Lemma X4_seed_kind_again_throws_witness :
  (Element = Element ∨ Element = Id ∨ Element = PseudoElement) ∧
  fst ((r ← facade_call Element "div"; instance_call Element r "span") [])
    = Throw DuplicateFragmentError.
Proof.
  split; [by left|].
  apply (X4_seed_kind_again_throws Element "div" "span" []). by left.
Defined.

(** Property X5: once a call of [id] (or of [pseudoElement]) has completed
    on an instance, a later call of the same method on it throws the
    duplicate error and leaves the store as it is, whatever chain of
    completed calls came in between. *)
Theorem X5_recorded_kind_stays_refused (k : kind) (calls : list (kind * string))
    (h h1 h2 : heap) (r r1 r2 : ref) (v w : string) :
  k = Id ∨ k = PseudoElement →
  instance_call k r v h = (Normal r1, h1) →
  chain calls r1 h1 = (Normal r2, h2) →
  instance_call k r2 w h2 = (Throw DuplicateFragmentError, h2).
Proof.
  intros Hk Hcall Hchain.
  assert (∃ o1, r1 = r ∧ h1 !! r = Some o1 ∧ str (kind_name k) ∈ selectors o1)
    as (o1 & -> & Hr1 & Hin1).
  { destruct (h !! r) as [o|] eqn:Hr;
      [|by rewrite (instance_call_dangling _ _ _ _ Hr) in Hcall].
    revert Hcall. destruct Hk as [-> | ->]; cbv [instance_call].
    - rewrite (id_run _ _ _ _ Hr). cbv zeta.
      repeat case_match; intros [= <- <-].
      eexists. split; [done|]. split; [by eapply lookup_updated|].
      cbn. unfold add. set_solver.
    - rewrite (pseudoElement_run _ _ _ _ Hr). cbv zeta.
      repeat case_match; intros [= <- <-].
      eexists. split; [done|]. split; [by eapply lookup_updated|].
      cbn. unfold add. set_solver. }
  apply (chain_selectors_mono _ _ _ _ _ _ Hr1) in Hchain
    as (-> & o2 & Hr2 & Hsub & _).
  assert (Hhas : has (selectors o2) (str (kind_name k)) = true).
  { apply has_true. by apply Hsub. }
  destruct Hk as [-> | ->]; cbv [instance_call]; cbn [kind_name] in Hhas.
  - by rewrite (id_run _ _ _ _ Hr2), Hhas.
  - by rewrite (pseudoElement_run _ _ _ _ Hr2), Hhas.
Qed.

Lemma X5_recorded_kind_stays_refused_witness :
  let h := snd (cssSelectorBuilder.element "div" []) in
  let h1 := snd (instance_call Id 0%nat "main" h) in
  let calls := [(Class, "a"); (Attribute, "b")] in
  let h2 := snd (chain calls 0%nat h1) in
  (Id = Id ∨ Id = PseudoElement) ∧
  instance_call Id 0%nat "main" h = (Normal 0%nat, h1) ∧
  chain calls 0%nat h1 = (Normal 0%nat, h2) ∧
  instance_call Id 0%nat "other" h2 = (Throw DuplicateFragmentError, h2).
Proof.
  intros h h1 calls h2.
  assert (H1 : instance_call Id 0%nat "main" h = (Normal 0%nat, h1))
    by by vm_compute.
  assert (H2 : chain calls 0%nat h1 = (Normal 0%nat, h2)) by by vm_compute.
  split; [by left|]. split; [exact H1|]. split; [exact H2|].
  exact (X5_recorded_kind_stays_refused Id calls h h1 h2 0%nat 0%nat 0%nat
           "main" "other" (or_introl eq_refl) H1 H2).
Defined.

(** Property X6: a call that throws leaves the store exactly as it found
    it, for every method but [id], and for [id] too when the error is the
    duplicate error. *)
Theorem X6_throw_leaves_store (k : kind) (h h' : heap) (r : ref)
    (v msg : string) :
  instance_call k r v h = (Throw msg, h') →
  k ≠ Id ∨ msg = DuplicateFragmentError →
  h' = h.
Proof.
  intros [(-> & -> & _)| ->]%instance_call_Throw Hside; [|done].
  by destruct Hside.
Qed.

Lemma X6_throw_leaves_store_witness :
  let h := snd (cssSelectorBuilder.attr "href" []) in
  instance_call Class 0%nat "link" h = (Throw OrderViolationError, h) ∧
  (Class ≠ Id ∨ OrderViolationError = DuplicateFragmentError) ∧
  h = h.
Proof.
  intros h.
  assert (H1 : instance_call Class 0%nat "link" h = (Throw OrderViolationError, h))
    by by vm_compute.
  assert (H2 : Class ≠ Id ∨ OrderViolationError = DuplicateFragmentError)
    by (left; discriminate).
  split; [exact H1|]. split; [exact H2|].
  exact (X6_throw_leaves_store Class h h 0%nat "link" OrderViolationError H1 H2).
Defined.

(** Property X7: a call that throws never changes what [stringify()]
    returns, on the instance it was made on or on any other. *)
Theorem X7_throw_leaves_rendered_text (k : kind) (h h' : heap) (r x : ref)
    (v msg : string) :
  instance_call k r v h = (Throw msg, h') →
  fst (Selector.stringify x h') = fst (Selector.stringify x h).
Proof.
  intros Ht%instance_call_Throw_template.
  assert (Hx : template <$> h' !! x = template <$> h !! x).
  { by rewrite <- !list_lookup_fmap, Ht. }
  destruct (h' !! x) as [o'|] eqn:Hx', (h !! x) as [o|] eqn:Hx0;
    try discriminate Hx.
  - rewrite (stringify_run _ _ _ Hx'), (stringify_run _ _ _ Hx0).
    cbn in Hx. by injection Hx as ->.
  - unfold Selector.stringify.
    by rewrite (get_template_dangling _ _ Hx'), (get_template_dangling _ _ Hx0).
Qed.

Lemma X7_throw_leaves_rendered_text_witness :
  let h := snd (cssSelectorBuilder.class "a" []) in
  let h' := snd (instance_call Id 0%nat "x" h) in
  instance_call Id 0%nat "x" h = (Throw OrderViolationError, h') ∧
  fst (Selector.stringify 0%nat h') = fst (Selector.stringify 0%nat h).
Proof.
  intros h h'.
  assert (H1 : instance_call Id 0%nat "x" h = (Throw OrderViolationError, h'))
    by by vm_compute.
  split; [exact H1|].
  exact (X7_throw_leaves_rendered_text Id h h' 0%nat 0%nat "x"
           OrderViolationError H1).
Defined.

(** Property X8: an instance method reads and writes the object behind
    [this] only: whether it returns or throws, every other object of the
    store is as it was, and no object is created. *)
Theorem X8_call_touches_only_this (k : kind) (h h' : heap) (r x : ref)
    (v : string) (c : completion ref) :
  instance_call k r v h = (c, h') →
  x ≠ r →
  h' !! x = h !! x ∧ length h' = length h.
Proof.
  intros Hcall Hx. split; [|by eapply instance_call_length].
  destruct c as [r'|msg].
  - apply instance_call_Normal in Hcall as (_ & o & o' & _ & -> & _).
    by apply list_lookup_insert_ne.
  - apply instance_call_Throw in Hcall as [(_ & _ & o & _ & ->)| ->]; [|done].
    by apply list_lookup_insert_ne.
Qed.

Lemma X8_call_touches_only_this_witness :
  let h := snd (exC10_operands []) in
  let h' := snd (instance_call Id 1%nat "main" h) in
  instance_call Id 1%nat "main" h = (Normal 1%nat, h') ∧
  0%nat ≠ 1%nat ∧
  h' !! 0%nat = h !! 0%nat ∧ length h' = length h.
Proof.
  intros h h'.
  assert (H1 : instance_call Id 1%nat "main" h = (Normal 1%nat, h'))
    by by vm_compute.
  assert (H2 : 0%nat ≠ 1%nat) by lia.
  split; [exact H1|]. split; [exact H2|].
  exact (X8_call_touches_only_this Id h h' 1%nat 0%nat "main" _ H1 H2).
Defined.

(** Property X9: no instance method ever removes a member of [selectors]
    or changes [order], whether it returns or throws. *)
Theorem X9_selectors_only_grow (k : kind) (h h' : heap) (r : ref)
    (o : Selector_obj) (v : string) (c : completion ref) :
  h !! r = Some o →
  instance_call k r v h = (c, h') →
  ∃ o', h' !! r = Some o' ∧ selectors o ⊆ selectors o' ∧ order o' = order o.
Proof.
  intros Hr Hcall. destruct c as [r'|msg].
  - apply instance_call_Normal in Hcall
      as (_ & o0 & o' & Hr0 & -> & _ & Hord & Hsub).
    assert (o0 = o) as -> by congruence.
    exists o'. split; [by eapply lookup_updated|done].
  - apply instance_call_Throw in Hcall as [(_ & _ & o0 & Hr0 & ->)| ->].
    + assert (o0 = o) as -> by congruence.
      eexists. split; [by eapply lookup_updated|].
      split; [|done]. cbn. unfold add. set_solver.
    + by exists o.
Qed.

Lemma X9_selectors_only_grow_witness :
  let o := Selector.constructor (str "div") (str "element") in
  let h := snd (cssSelectorBuilder.element "div" []) in
  let h' := snd (instance_call PseudoElement 0%nat "after" h) in
  h !! 0%nat = Some o ∧
  instance_call PseudoElement 0%nat "after" h = (Normal 0%nat, h') ∧
  ∃ o', h' !! 0%nat = Some o' ∧ selectors o ⊆ selectors o' ∧ order o' = order o.
Proof.
  intros o h h'.
  assert (H1 : instance_call PseudoElement 0%nat "after" h = (Normal 0%nat, h'))
    by by vm_compute.
  split; [reflexivity|]. split; [exact H1|].
  exact (X9_selectors_only_grow PseudoElement h h' 0%nat o "after" _ eq_refl H1).
Defined.

(** Property X10: [element], [class], [attr] and [pseudoClass] never write
    [selectors]: after such a call, returned or thrown, the [selectors] of
    every object are what they were. *)
Theorem X10_only_id_and_pseudoElement_record (k : kind) (h h' : heap)
    (r : ref) (v : string) (c : completion ref) :
  k ≠ Id → k ≠ PseudoElement →
  instance_call k r v h = (c, h') →
  selectors <$> h' = selectors <$> h.
Proof. apply unrecorded_kinds. Qed.

Lemma X10_only_id_and_pseudoElement_record_witness :
  let h := snd (cssSelectorBuilder.element "div" []) in
  let h' := snd (instance_call PseudoClass 0%nat "hover" h) in
  PseudoClass ≠ Id ∧ PseudoClass ≠ PseudoElement ∧
  instance_call PseudoClass 0%nat "hover" h = (Normal 0%nat, h') ∧
  selectors <$> h' = selectors <$> h.
Proof.
  intros h h'.
  assert (H1 : instance_call PseudoClass 0%nat "hover" h = (Normal 0%nat, h'))
    by by vm_compute.
  split; [discriminate|]. split; [discriminate|]. split; [exact H1|].
  apply (X10_only_id_and_pseudoElement_record PseudoClass h h' 0%nat "hover"
           (Normal 0%nat)); [discriminate|discriminate|exact H1].
Defined.

Lemma order_ok_later_recorded (o : Selector_obj) (k k' : kind) :
  order o = order (Selector.constructor undefined undefined) →
  (rank k < rank k')%nat →
  str (kind_name k') ∈ selectors o →
  order_ok o (kind_name k) = false.
Proof.
  intros Hord Hlt Hin. destruct (order_ok o (kind_name k)) eqn:Hok; [|done].
  exfalso. by apply (proj1 (order_ok_spec o k Hord) Hok k' Hlt).
Qed.

(** Property X11: once [selectors] holds the PseudoElement kind, the
    instance accepts no further fragment: every one of the six instance
    methods throws, with the duplicate error or the order error. *)
Theorem X11_nothing_after_pseudoElement (k : kind) (h : heap) (r : ref)
    (o : Selector_obj) (v : string) :
  h !! r = Some o →
  order o = order (Selector.constructor undefined undefined) →
  str (kind_name PseudoElement) ∈ selectors o →
  ∃ (msg : string) (h' : heap),
    instance_call k r v h = (Throw msg, h') ∧
    (msg = DuplicateFragmentError ∨ msg = OrderViolationError).
Proof.
  intros Hr Hord Hin.
  assert (Hlater : ∀ (o' : Selector_obj) (k0 : kind) (name : string),
    name = kind_name k0 →
    order o' = order o → selectors o ⊆ selectors o' →
    (rank k0 < rank PseudoElement)%nat →
    order_ok o' name = false).
  { intros o' k0 name -> Hord' Hsub Hlt.
    apply (order_ok_later_recorded o' k0 PseudoElement); [congruence|done|].
    set_solver. }
  destruct k; cbv [instance_call].
  - rewrite (element_run _ _ _ _ Hr).
    destruct (has _ _); [by eexists _, _; split; [|left]|].
    rewrite (Hlater o Element "element") by (done || cbn; lia).
    by eexists _, _; split; [|right].
  - rewrite (id_run _ _ _ _ Hr). cbv zeta.
    destruct (has _ _); [by eexists _, _; split; [|left]|].
    rewrite (Hlater _ Id "id");
      [|done|done|cbn; unfold add; set_solver|cbn; lia].
    by eexists _, _; split; [|right].
  - rewrite (class_run _ _ _ _ Hr), (Hlater o Class "class")
      by (done || cbn; lia).
    by eexists _, _; split; [|right].
  - rewrite (attr_run _ _ _ _ Hr), (Hlater o Attribute "attr")
      by (done || cbn; lia).
    by eexists _, _; split; [|right].
  - rewrite (pseudoClass_run _ _ _ _ Hr), (Hlater o PseudoClass "pseudoClass")
      by (done || cbn; lia).
    by eexists _, _; split; [|right].
  - rewrite (pseudoElement_run _ _ _ _ Hr).
    apply has_true in Hin. cbn [kind_name] in Hin. rewrite Hin.
    by eexists _, _; split; [|left].
Qed.

Lemma X11_nothing_after_pseudoElement_witness :
  let o := Selector.constructor (str "::after") (str "pseudoElement") in
  let h := snd (cssSelectorBuilder.pseudoElement "after" []) in
  h !! 0%nat = Some o ∧
  order o = order (Selector.constructor undefined undefined) ∧
  str (kind_name PseudoElement) ∈ selectors o ∧
  ∃ (msg : string) (h' : heap),
    instance_call PseudoClass 0%nat "valid" h = (Throw msg, h') ∧
    (msg = DuplicateFragmentError ∨ msg = OrderViolationError).
Proof.
  intros o h.
  assert (Hin : str (kind_name PseudoElement) ∈ selectors o).
  { apply (bool_decide_unpack _). by vm_compute. }
  split; [reflexivity|]. split; [reflexivity|]. split; [exact Hin|].
  exact (X11_nothing_after_pseudoElement PseudoClass h 0%nat o "valid"
           eq_refl eq_refl Hin).
Defined.

(** Property X12: on an instance seeded by the facade with kind [k0], a
    chain of [class], [attr] and [pseudoClass] calls none of which ranks
    below [k0] completes whatever the order of its calls, and renders the
    seed fragment followed by the fragments of the calls in call order. *)
Theorem X12_repeatable_kinds_in_any_order (k0 : kind) (v0 : string)
    (calls : list (kind * string)) (h : heap) :
  Forall (λ c, repeatable c.1 = true ∧ (rank k0 ≤ rank c.1)%nat) calls →
  fst ((r ← facade_call k0 v0; r ← chain calls r; Selector.stringify r) h)
    = Normal (str (fragment k0 v0 +:+ fragments calls)).
Proof. apply repeatable_chain_accepted. Qed.

Lemma X12_repeatable_kinds_in_any_order_witness :
  let calls := [(PseudoClass, "hover"); (Class, "btn"); (Attribute, "disabled")] in
  Forall (λ c, repeatable c.1 = true ∧ (rank Element ≤ rank c.1)%nat) calls ∧
  fst ((r ← facade_call Element "a"; r ← chain calls r; Selector.stringify r) [])
    = Normal (str "a:hover.btn[disabled]").
Proof.
  intros calls.
  assert (Hcalls : Forall (λ c, repeatable c.1 = true ∧ (rank Element ≤ rank c.1)%nat) calls).
  { repeat (apply Forall_cons; split; [split; [reflexivity|cbn; lia]|]).
    apply Forall_nil_2. }
  split; [exact Hcalls|].
  exact (X12_repeatable_kinds_in_any_order Element "a" calls [] Hcalls).
Defined.

(** ** Further properties of the two [combine] methods *)

(** Property X13: combining three builders renders the same text whether
    the facade's [combine] is nested to the right or to the left: the
    three rendered texts in argument order, each combinator between its
    neighbours with one space on either side. *)
Theorem X13_nested_combine_text (h : heap) (a b d : ref) (c1 c2 : string)
    (va vb vd : value) :
  fst (Selector.stringify a h) = Normal va →
  fst (Selector.stringify b h) = Normal vb →
  fst (Selector.stringify d h) = Normal vd →
  let text :=
    str (ToString va +:+ " " +:+ c1 +:+ " " +:+ ToString vb
         +:+ " " +:+ c2 +:+ " " +:+ ToString vd) in
  fst ((bd ← cssSelectorBuilder.combine b c2 d;
        r ← cssSelectorBuilder.combine a c1 bd;
        Selector.stringify r) h) = Normal text ∧
  fst ((ab ← cssSelectorBuilder.combine a c1 b;
        r ← cssSelectorBuilder.combine ab c2 d;
        Selector.stringify r) h) = Normal text.
Proof.
  intros (oa & Ha & <-)%stringify_Normal (ob & Hb & <-)%stringify_Normal
    (od & Hd & <-)%stringify_Normal text. subst text.
  assert (Hold : ∀ (x : ref) (ox o : Selector_obj),
    h !! x = Some ox → (h ++ [o]) !! x = Some ox).
  { intros x ox o Hx. rewrite lookup_app_l; [done|by eapply lookup_lt_Some]. }
  split.
  - rewrite bind_run, (combine_run _ _ _ _ _ _ Hb Hd).
    rewrite bind_run,
      (combine_run _ _ _ _ _ _ (Hold _ _ _ Ha) (lookup_new _ _)).
    by rewrite (stringify_run _ _ _ (lookup_new _ _)).
  - rewrite bind_run, (combine_run _ _ _ _ _ _ Ha Hb).
    rewrite bind_run,
      (combine_run _ _ _ _ _ _ (lookup_new _ _) (Hold _ _ _ Hd)).
    rewrite (stringify_run _ _ _ (lookup_new _ _)).
    cbn [Selector.constructor template ToString fst].
    by rewrite !string_app_assoc.
Qed.

Lemma X13_nested_combine_text_witness :
  let h := snd ((a ← cssSelectorBuilder.element "ul";
                 b ← cssSelectorBuilder.element "li";
                 cssSelectorBuilder.element "a") []) in
  fst (Selector.stringify 0%nat h) = Normal (str "ul") ∧
  fst (Selector.stringify 1%nat h) = Normal (str "li") ∧
  fst (Selector.stringify 2%nat h) = Normal (str "a") ∧
  fst ((bd ← cssSelectorBuilder.combine 1%nat " " 2%nat;
        r ← cssSelectorBuilder.combine 0%nat ">" bd;
        Selector.stringify r) h) = Normal (str "ul > li   a") ∧
  fst ((ab ← cssSelectorBuilder.combine 0%nat ">" 1%nat;
        r ← cssSelectorBuilder.combine ab " " 2%nat;
        Selector.stringify r) h) = Normal (str "ul > li   a").
Proof.
  intros h. split; [reflexivity|]. split; [reflexivity|]. split; [reflexivity|].
  apply (X13_nested_combine_text h 0%nat 1%nat 2%nat ">" " "
           (str "ul") (str "li") (str "a")); reflexivity.
Defined.

(** Property X14: the instance method [combine], given strings, replaces
    the rendered text of [this] by the strings joined with single spaces,
    whatever the text was; it returns [this], creates no object and leaves
    the [selectors] of every object as they were, so the kinds recorded
    before still rule the later checks. *)
Theorem X14_instance_combine_overwrites (h : heap) (r : ref)
    (o : Selector_obj) (args : list string) :
  h !! r = Some o →
  ∃ h' : heap,
    Selector.combine r args h = (Normal r, h') ∧
    Selector.stringify r h' = (Normal (str (join " " args)), h') ∧
    selectors <$> h' = selectors <$> h ∧
    length h' = length h.
Proof.
  intros Hr. eexists. unfold Selector.combine.
  rewrite bind_run, (set_template_run _ _ _ _ Hr).
  split; [reflexivity|].
  split; [by erewrite stringify_run; [|by eapply lookup_updated]|].
  split; [|apply length_insert].
  rewrite list_fmap_insert. cbn. apply list_insert_id.
  by rewrite list_lookup_fmap, Hr.
Qed.

Lemma X14_instance_combine_overwrites_witness :
  let o := Selector.constructor (str "::after") (str "pseudoElement") in
  let h := snd (cssSelectorBuilder.pseudoElement "after" []) in
  h !! 0%nat = Some o ∧
  ∃ h' : heap,
    Selector.combine 0%nat ["div"; "+"; "p"] h = (Normal 0%nat, h') ∧
    Selector.stringify 0%nat h' = (Normal (str "div + p"), h') ∧
    selectors <$> h' = selectors <$> h ∧
    length h' = length h.
Proof.
  intros o h. split; [reflexivity|].
  apply (X14_instance_combine_overwrites h 0%nat o ["div"; "+"; "p"]).
  reflexivity.
Defined.

(** Property X15: on the instance returned by the facade's [combine], a
    first call of any of the six instance methods completes and appends
    its fragment to the combined text. *)
Theorem X15_combined_accepts_a_first_fragment (h h1 : heap) (a b r : ref)
    (c : string) (k : kind) (v : string) :
  cssSelectorBuilder.combine a c b h = (Normal r, h1) →
  ∃ (t : string) (h2 : heap),
    Selector.stringify r h1 = (Normal (str t), h1) ∧
    instance_call k r v h1 = (Normal r, h2) ∧
    Selector.stringify r h2 = (Normal (str (t +:+ fragment k v)), h2).
Proof.
  intros Hcomb.
  destruct (h !! a) as [oa|] eqn:Ha; [destruct (h !! b) as [ob|] eqn:Hb|].
  - rewrite (combine_run _ _ _ _ _ _ Ha Hb) in Hcomb.
    injection Hcomb as <- <-.
    set (t := ToString (template oa) +:+ " " +:+ c +:+ " " +:+ ToString (template ob)).
    set (o1 := Selector.constructor (str t) undefined).
    pose proof (lookup_new h o1) as Hr.
    assert (Hdone : ∀ o2 : Selector_obj,
      template o2 = str (t +:+ fragment k v) →
      Selector.stringify (length h) (<[ length h := o2 ]> (h ++ [o1]))
        = (Normal (str (t +:+ fragment k v)), <[ length h := o2 ]> (h ++ [o1]))).
    { intros o2 <-. apply stringify_run. by eapply lookup_updated. }
    exists t.
    destruct k; eexists; (split; [by rewrite (stringify_run _ _ _ Hr)|]);
      cbv [instance_call fragment];
      [ rewrite (element_run _ _ _ _ Hr) | rewrite (id_run _ _ _ _ Hr)
      | rewrite (class_run _ _ _ _ Hr) | rewrite (attr_run _ _ _ _ Hr)
      | rewrite (pseudoClass_run _ _ _ _ Hr)
      | rewrite (pseudoElement_run _ _ _ _ Hr) ];
      cbv zeta;
      repeat (match goal with
              | |- context [if ?b then _ else _] =>
                  let b' := eval vm_compute in b in change b with b'; cbv iota
              end);
      (split; [reflexivity|]); by apply Hdone.
  - revert Hcomb. unfold cssSelectorBuilder.combine.
    rewrite bind_run, (get_template_run _ _ _ Ha).
    by rewrite bind_run, (get_template_dangling _ _ Hb).
  - revert Hcomb. unfold cssSelectorBuilder.combine.
    by rewrite bind_run, (get_template_dangling _ _ Ha).
Qed.

Lemma X15_combined_accepts_a_first_fragment_witness :
  let h := snd (exC10_operands []) in
  let h1 := snd (cssSelectorBuilder.combine 0%nat "~" 1%nat h) in
  cssSelectorBuilder.combine 0%nat "~" 1%nat h = (Normal 2%nat, h1) ∧
  ∃ (t : string) (h2 : heap),
    Selector.stringify 2%nat h1 = (Normal (str t), h1) ∧
    instance_call Id 2%nat "x" h1 = (Normal 2%nat, h2) ∧
    Selector.stringify 2%nat h2 = (Normal (str (t +:+ fragment Id "x")), h2).
Proof.
  intros h h1. split; [reflexivity|].
  apply (X15_combined_accepts_a_first_fragment h h1 0%nat 1%nat 2%nat "~" Id "x").
  reflexivity.
Defined.

(** Property X16: in [element], [id] and [pseudoElement] the duplicate
    check comes first: when the kind is already a member of [selectors],
    the call throws the duplicate error and leaves the store as it is,
    whatever the order check would have answered. *)
Theorem X16_duplicate_error_first (k : kind) (h : heap) (r : ref)
    (o : Selector_obj) (v : string) :
  k = Element ∨ k = Id ∨ k = PseudoElement →
  h !! r = Some o →
  str (kind_name k) ∈ selectors o →
  instance_call k r v h = (Throw DuplicateFragmentError, h).
Proof.
  intros Hk Hr Hin%has_true.
  destruct Hk as [->|[->| ->]]; cbv [instance_call]; cbn [kind_name] in Hin.
  - by rewrite (element_run _ _ _ _ Hr), Hin.
  - by rewrite (id_run _ _ _ _ Hr), Hin.
  - by rewrite (pseudoElement_run _ _ _ _ Hr), Hin.
Qed.

Lemma X16_duplicate_error_first_witness :
  let h := snd ((r ← cssSelectorBuilder.id "main";
                 Selector.pseudoElement r "after") []) in
  ∃ o : Selector_obj,
    (Id = Element ∨ Id = Id ∨ Id = PseudoElement) ∧
    h !! 0%nat = Some o ∧
    str (kind_name Id) ∈ selectors o ∧
    order_ok o (kind_name Id) = false ∧
    instance_call Id 0%nat "other" h = (Throw DuplicateFragmentError, h).
Proof.
  intros h. eexists.
  assert (Hk : Id = Element ∨ Id = Id ∨ Id = PseudoElement) by (right; by left).
  split; [exact Hk|]. split; [reflexivity|].
  assert (Hin : str (kind_name Id) ∈
                  selectors (mkSelector (str "#main::after")
                    (add {[ str "id" ]} (str "pseudoElement"))
                    ["element"; "id"; "class"; "attr"; "pseudoClass"; "pseudoElement"])).
  { apply (bool_decide_unpack _). by vm_compute. }
  split; [exact Hin|]. split; [by vm_compute|].
  exact (X16_duplicate_error_first Id h 0%nat _ "other" Hk eq_refl Hin).
Defined.

(** ** When a call is accepted *)

Lemma kind_name_inj (k k' : kind) : str (kind_name k) = str (kind_name k') → k = k'.
Proof. by destruct k, k'. Qed.

(** A call is accepted when its kind, if not repeatable, is not yet a
    member of [selectors], and no kind ranked after it is. *)
Lemma instance_call_accepted (k : kind) (h : heap) (r : ref)
    (o : Selector_obj) (v : string) :
  h !! r = Some o →
  order o = order (Selector.constructor undefined undefined) →
  (repeatable k = false → str (kind_name k) ∉ selectors o) →
  (∀ k' : kind, (rank k < rank k')%nat → str (kind_name k') ∉ selectors o) →
  ∃ o',
    instance_call k r v h = (Normal r, <[ r := o' ]> h) ∧
    template o' = plus_assign (template o) (fragment k v) ∧
    order o' = order o ∧
    selectors o' ⊆ selectors o ∪ {[ str (kind_name k) ]}.
Proof.
  intros Hr Hord Hfresh Horder.
  assert (Hok : order_ok o (kind_name k) = true) by by apply order_ok_spec.
  destruct k; cbv [instance_call fragment]; cbn [kind_name] in *.
  - rewrite (element_run _ _ _ _ Hr), Hok.
    rewrite (proj2 (has_false _ _) (Hfresh eq_refl)).
    eexists. split; [done|]. repeat split. cbn. set_solver.
  - rewrite (id_run _ _ _ _ Hr). cbv zeta.
    rewrite (proj2 (has_false _ _) (Hfresh eq_refl)).
    set (o1 := with_selectors o _).
    assert (Hok1 : order_ok o1 (kind_name Id) = true).
    { apply (order_ok_spec o1 Id Hord). intros k' Hlt.
      subst o1. cbn. unfold add.
      intros [Hin%elem_of_singleton|Hin]%elem_of_union.
      - apply (kind_name_inj k' Id) in Hin as ->. lia.
      - by apply (Horder k'). }
    cbn [kind_name] in Hok1. rewrite Hok1.
    eexists. split; [done|]. repeat split. cbn. unfold add.
    intros x. rewrite !elem_of_union. tauto.
  - rewrite (class_run _ _ _ _ Hr), Hok.
    eexists. split; [done|]. repeat split. cbn. set_solver.
  - rewrite (attr_run _ _ _ _ Hr), Hok.
    eexists. split; [done|]. repeat split. cbn. set_solver.
  - rewrite (pseudoClass_run _ _ _ _ Hr), Hok.
    eexists. split; [done|]. repeat split. cbn. set_solver.
  - rewrite (pseudoElement_run _ _ _ _ Hr). cbv zeta.
    rewrite (proj2 (has_false _ _) (Hfresh eq_refl)).
    eexists. split; [done|]. repeat split. cbn. unfold add.
    intros x. rewrite !elem_of_union. tauto.
Qed.

(** In every other case the call throws one of the two errors. *)
Lemma instance_call_rejected (k : kind) (h : heap) (r : ref)
    (o : Selector_obj) (v : string) :
  h !! r = Some o →
  order o = order (Selector.constructor undefined undefined) →
  ¬ ((repeatable k = false → str (kind_name k) ∉ selectors o) ∧
     (∀ k' : kind, (rank k < rank k')%nat → str (kind_name k') ∉ selectors o)) →
  ∃ (msg : string) (h' : heap),
    instance_call k r v h = (Throw msg, h') ∧
    (msg = DuplicateFragmentError ∨ msg = OrderViolationError).
Proof.
  intros Hr Hord Hnot.
  destruct (instance_call k r v h) as [[r'|msg] h'] eqn:Hcall.
  - exfalso. apply Hnot.
    pose proof (accepted_only_if_unrecorded _ _ _ _ _ _ _ Hr Hord Hcall)
      as Horder.
    split; [|done]. intros Hrep Hin%has_true.
    revert Hcall. destruct k; try discriminate Hrep;
      cbv [instance_call]; cbn [kind_name] in Hin.
    + by rewrite (element_run _ _ _ _ Hr), Hin.
    + by rewrite (id_run _ _ _ _ Hr), Hin.
    + by rewrite (pseudoElement_run _ _ _ _ Hr), Hin.
  - exists msg, h'. split; [done|].
    revert Hcall. destruct k; cbv [instance_call];
      [ rewrite (element_run _ _ _ _ Hr) | rewrite (id_run _ _ _ _ Hr)
      | rewrite (class_run _ _ _ _ Hr) | rewrite (attr_run _ _ _ _ Hr)
      | rewrite (pseudoClass_run _ _ _ _ Hr)
      | rewrite (pseudoElement_run _ _ _ _ Hr) ];
      cbv zeta; repeat case_match; intros [= <- <-]; by (left + right).
Qed.

(** A chain that follows the grammar is accepted call by call. *)
Lemma ordered_chain_run (calls : list (kind * string)) (prev : kind)
    (h : heap) (r : ref) (o : Selector_obj) (t : string) :
  h !! r = Some o → template o = str t →
  order o = order (Selector.constructor undefined undefined) →
  (∀ k' : kind, str (kind_name k') ∈ selectors o → (rank k' ≤ rank prev)%nat) →
  ordered prev calls = true →
  ∃ o',
    chain calls r h = (Normal r, <[ r := o' ]> h) ∧
    template o' = str (t +:+ fragments calls).
Proof.
  revert prev h o t.
  induction calls as [|[k v] calls IH]; intros prev h o t Hr Ht Hord Hmax Hcalls.
  - exists o. cbn. rewrite list_insert_id by done.
    by rewrite string_app_nil_r.
  - cbn [ordered] in Hcalls.
    apply andb_prop in Hcalls as [Hstep Hrest].
    assert (Hrank : (rank prev < rank k)%nat ∨
                    (rank prev = rank k ∧ repeatable k = true)).
    { apply orb_prop in Hstep as [Hlt%Nat.ltb_lt|[Heq%Nat.eqb_eq Hrep]%andb_prop];
        [by left|by right]. }
    destruct (instance_call_accepted k h r o v Hr Hord)
      as (o1 & Hcall & Ht1 & Hord1 & Hsel1).
    { intros Hrep Hin%Hmax. destruct Hrank as [?|[_ ?]]; [lia|congruence]. }
    { intros k' Hlt Hin%Hmax. destruct Hrank as [?|[? _]]; lia. }
    destruct (IH k (<[ r := o1 ]> h) o1 (t +:+ fragment k v))
      as (o' & Hchain & Ht'); [by eapply lookup_updated| |congruence| |done|].
    { by rewrite Ht1, Ht. }
    { intros k' [Hin|Hin%elem_of_singleton]%Hsel1%elem_of_union.
      - apply Hmax in Hin. destruct Hrank as [?|[? _]]; lia.
      - by apply kind_name_inj in Hin as ->. }
    exists o'. cbn [chain fragments].
    rewrite bind_run, Hcall, Hchain, list_insert_insert_eq.
    by rewrite Ht', string_app_assoc.
Qed.

(** Claim C6: each facade entry method seeds the rendered text with its
    prefixed fragment, so that [element(v).stringify()] is [v],
    [id(v).stringify()] is [#v], [class(v).stringify()] is [.v],
    [attr(v).stringify()] is [v] between square brackets,
    [pseudoClass(v).stringify()] is [:v] and [pseudoElement(v).stringify()]
    is [::v].  An instance call of kind [k] is accepted exactly when [k],
    if not repeatable, is not yet recorded in [selectors] and no kind
    ranked after [k] is; an accepted call returns [this] with exactly the
    fragment of [k] appended to the text, and any other call throws one of
    the two errors.  Hence a chain of instance calls that completes has
    appended the fragments of its calls in call order, and every chain
    that follows the grammar after the seed kind does complete.  In
    particular [id('main').class('container').class('editable').stringify()]
    is [#main.container.editable]. *)
Theorem C6_fragments_rendered_in_call_order :
  (∀ (v : string) (h : heap),
     fst ((r ← cssSelectorBuilder.element v; Selector.stringify r) h)
       = Normal (str v) ∧
     fst ((r ← cssSelectorBuilder.id v; Selector.stringify r) h)
       = Normal (str ("#" +:+ v)) ∧
     fst ((r ← cssSelectorBuilder.class v; Selector.stringify r) h)
       = Normal (str ("." +:+ v)) ∧
     fst ((r ← cssSelectorBuilder.attr v; Selector.stringify r) h)
       = Normal (str ("[" +:+ v +:+ "]")) ∧
     fst ((r ← cssSelectorBuilder.pseudoClass v; Selector.stringify r) h)
       = Normal (str (":" +:+ v)) ∧
     fst ((r ← cssSelectorBuilder.pseudoElement v; Selector.stringify r) h)
       = Normal (str ("::" +:+ v)))
  ∧ (∀ (k : kind) (h : heap) (r : ref) (o : Selector_obj) (v : string),
       h !! r = Some o →
       order o = order (Selector.constructor undefined undefined) →
       let accepted :=
         (repeatable k = false → str (kind_name k) ∉ selectors o) ∧
         (∀ k' : kind, (rank k < rank k')%nat → str (kind_name k') ∉ selectors o) in
       (accepted ∧ ∃ o',
          instance_call k r v h = (Normal r, <[ r := o' ]> h) ∧
          template o' = str (ToString (template o) +:+ fragment k v))
       ∨ (¬ accepted ∧ ∃ (msg : string) (h' : heap),
            instance_call k r v h = (Throw msg, h') ∧
            (msg = DuplicateFragmentError ∨ msg = OrderViolationError)))
  ∧ (∀ (k0 : kind) (v0 : string) (calls : list (kind * string)) (h : heap),
       match (r ← facade_call k0 v0; r ← chain calls r; Selector.stringify r) h with
       | (Normal t, _) => t = str (fragment k0 v0 +:+ fragments calls)
       | (Throw _, _) => True
       end)
  ∧ (∀ (k0 : kind) (v0 : string) (calls : list (kind * string)) (h : heap),
       ordered k0 calls = true →
       fst ((r ← facade_call k0 v0; r ← chain calls r; Selector.stringify r) h)
         = Normal (str (fragment k0 v0 +:+ fragments calls)))
  ∧ fst (exC6 []) = Normal (str "#main.container.editable").
Proof.
  split; [|split; [|split; [|split]]].
  - intros v h.
    repeat split;
      [ pose proof (facade_call_run Element v h) as Hs
      | pose proof (facade_call_run Id v h) as Hs
      | pose proof (facade_call_run Class v h) as Hs
      | pose proof (facade_call_run Attribute v h) as Hs
      | pose proof (facade_call_run PseudoClass v h) as Hs
      | pose proof (facade_call_run PseudoElement v h) as Hs ];
      cbv [facade_call] in Hs; rewrite bind_run, Hs;
      by rewrite (stringify_run _ _ _ (lookup_new _ _)).
  - intros k h r o v Hr Hord accepted.
    assert (Hdec : accepted ∨ ¬ accepted).
    { destruct (instance_call k r v h) as [[r'|msg] h'] eqn:Hcall.
      - left.
        split; [|exact (accepted_only_if_unrecorded _ _ _ _ _ _ _ Hr Hord Hcall)].
        intros Hrep Hin%has_true.
        revert Hcall. destruct k; try discriminate Hrep;
          cbv [instance_call]; cbn [kind_name] in Hin.
        + by rewrite (element_run _ _ _ _ Hr), Hin.
        + by rewrite (id_run _ _ _ _ Hr), Hin.
        + by rewrite (pseudoElement_run _ _ _ _ Hr), Hin.
      - right. intros [Hfresh Horder].
        destruct (instance_call_accepted k h r o v Hr Hord Hfresh Horder)
          as (o' & Hcall' & _). congruence. }
    destruct Hdec as [Hacc|Hnot].
    + left. split; [done|]. destruct Hacc as [Hfresh Horder].
      destruct (instance_call_accepted k h r o v Hr Hord Hfresh Horder)
        as (o' & Hcall & Ht & _).
      by exists o'.
    + right. split; [done|].
      exact (instance_call_rejected k h r o v Hr Hord Hnot).
  - intros k0 v0 calls h. rewrite bind_run, facade_call_run, bind_run.
    destruct (chain calls _ _) as [[r'|msg] h'] eqn:Hchain; [|done].
    eapply chain_Normal in Hchain as (-> & o' & Hr' & Ht');
      [|apply lookup_new|done].
    by rewrite (stringify_run _ _ _ Hr'), Ht'.
  - intros k0 v0 calls h Hcalls. rewrite bind_run, facade_call_run.
    set (o := Selector.constructor _ _).
    destruct (ordered_chain_run calls k0 (h ++ [o]) (length h) o
                (fragment k0 v0)) as (o' & Hchain & Ht');
      [apply lookup_new|done|done| |done|].
    { intros k' Hin.
      change (str (kind_name k') ∈ ({[ str (kind_name k0) ]} : gset value)) in Hin.
      apply elem_of_singleton in Hin. by apply kind_name_inj in Hin as ->. }
    rewrite bind_run, Hchain.
    erewrite stringify_run; [|by eapply lookup_updated, lookup_new].
    by rewrite Ht'.
  - by vm_compute.
Qed.

Lemma C6_fragments_rendered_in_call_order_witness :
  let calls :=
    [(Id, "main"); (Class, "c"); (Class, "d"); (Attribute, "x");
     (PseudoClass, "hover"); (PseudoElement, "after")] in
  let h1 :=
    snd (cssSelectorBuilder.combine 0%nat "+" 1%nat (snd (exC10_operands []))) in
  let o1 := Selector.constructor (str "a + b") undefined in
  ordered Element calls = true ∧
  fst ((r ← facade_call Element "a"; r ← chain calls r; Selector.stringify r) [])
    = Normal (str "a#main.c.d[x]:hover::after") ∧
  h1 !! 2%nat = Some o1 ∧
  order o1 = order (Selector.constructor undefined undefined) ∧
  ∃ o',
    instance_call Element 2%nat "x" h1 = (Normal 2%nat, <[ 2%nat := o' ]> h1) ∧
    template o' = str "a + bx".
Proof.
  intros calls h1 o1.
  destruct C6_fragments_rendered_in_call_order
    as (_ & Hcall & _ & Hordered & _).
  split; [reflexivity|].
  split; [exact (Hordered Element "a" calls [] eq_refl)|].
  split; [reflexivity|]. split; [reflexivity|].
  destruct (Hcall Element h1 2%nat o1 "x" eq_refl eq_refl)
    as [[_ Hacc]|[Hnot _]]; [exact Hacc|].
  exfalso. apply Hnot. split.
  - intros _ Hin.
    change (str "element" ∈ ({[ undefined ]} : gset value)) in Hin.
    apply elem_of_singleton in Hin. discriminate Hin.
  - intros k' _ Hin.
    change (str (kind_name k') ∈ ({[ undefined ]} : gset value)) in Hin.
    apply elem_of_singleton in Hin. discriminate Hin.
Defined.
